(** * Room relay of [websocket-server.js]: model and verified properties

    The server keeps two registries, [rooms] (room key -> room object) and
    [clientRooms] (socket -> room key), and reacts to four kinds of events:
    a socket connecting, a text frame arriving on a socket, a socket closing,
    and the periodic sweep of old empty rooms.  Every handler runs to
    completion before the next one starts, so the server is a deterministic
    function of its state and of what the environment supplies to the
    handler (the sockets' [readyState], the random bytes, the UUID and the
    clock).

    Room objects are JavaScript objects that handlers hold by reference and
    mutate in place; they live in an explicit [heap] and the [rooms] map
    stores their addresses, so that a handler which still holds a room it
    has just removed from [rooms] behaves as in the source. *)

From Stdlib Require Import ZArith NArith Ascii String.
From stdpp Require Import gmap strings list fin_maps.

Local Open Scope list_scope.
Local Open Scope nat_scope.

(** ** Values, messages and transport *)

(** A [WebSocket] object, identified by a handle. *)
Abbreviation conn := nat (only parsing).

(** Address of a room object. *)
Abbreviation loc := nat (only parsing).

(** The JSON values a field of a parsed envelope can hold.  [JNum] is an
    integer-valued number; [JOther] stands for every remaining value
    (objects, arrays, fractional numbers), all of which are truthy and none
    of which has a [substring] method. *)
Inductive JsVal :=
| JUndefined
| JNull
| JBool (b : bool)
| JNum (n : Z)
| JStr (s : string)
| JOther.

Global Instance JsVal_eq_dec : EqDecision JsVal.
Proof. solve_decision. Defined.

(** JavaScript truthiness, as used by [if (x)], [!x] and [x || y]. *)
Definition truthy (v : JsVal) : bool :=
  match v with
  | JUndefined | JNull => false
  | JBool b => b
  | JNum n => negb (n =? 0)%Z
  | JStr s => negb (String.eqb s "")
  | JOther => true
  end.

(** [a || b] *)
Definition jsOr (a b : JsVal) : JsVal := if truthy a then a else b.

(** [messageData] of the [send_message] case.  [timestamp] is the instant
    (milliseconds) whose ISO rendering the source stores. *)
Record Message := mkMessage {
  id : string;
  text : JsVal;
  timestamp : Z;
  sender : JsVal
}.

Global Instance Message_eq_dec : EqDecision Message.
Proof. solve_decision. Defined.

(** The objects the server serialises and sends, by their [type] field. *)
Inductive ServerMsg :=
| connected
| room_created (roomKey : string)
| room_joined (roomKey : string) (participantCount : nat)
| join_error
| message (m : Message)
| participant_joined (participantCount : nat)
| participant_left (participantCount : nat)
| room_left
| error (err : string)
| pong.

Global Instance ServerMsg_eq_dec : EqDecision ServerMsg.
Proof. solve_decision. Defined.

(** One call of [client.send]: the receiving socket and the payload. *)
Definition Out : Type := conn * ServerMsg.

(** A parsed inbound frame, by the branch of the [switch] it selects.
    [malformed] is a frame on which [JSON.parse] throws, or whose value is
    [null] so that reading [message.type] throws; [unknown_type] takes the
    [default] branch. *)
Inductive ClientMsg :=
| malformed
| create_room
| join_room (roomKey : JsVal)
| send_message (text sender : JsVal)
| leave_room
| ping
| unknown_type.

(** What the environment supplies while one handler runs. *)
Record Env := mkEnv {
  ready : conn → bool;                       (* readyState === WebSocket.OPEN *)
  randomBytes : Byte.byte * Byte.byte * Byte.byte * Byte.byte;
                                             (* crypto.randomBytes(4) *)
  randomUUID : string;                       (* crypto.randomUUID() *)
  now : Z                                    (* new Date(), in milliseconds *)
}.

(** ** Rooms and registries *)

(** A room object.  [clients] is a JavaScript [Set]: a sequence in insertion
    order, which is also the order of [forEach]. *)
Record Room := mkRoom {
  clients : list conn;
  messages : list Message;
  createdAt : Z
}.

Record State := mkState {
  heap : list Room;                 (* the room objects allocated so far *)
  rooms : gmap string loc;          (* const rooms = new Map() *)
  clientRooms : gmap conn string    (* const clientRooms = new Map() *)
}.

Definition init : State := mkState [] ∅ ∅.

(** [Set.prototype.add], [Set.prototype.delete] and [size]. *)
Definition setAdd (ws : conn) (s : list conn) : list conn :=
  if bool_decide (ws ∈ s) then s else s ++ [ws].

Definition setDelete (ws : conn) (s : list conn) : list conn :=
  filter (λ c, c ≠ ws) s.

(** [rooms.get(key)] followed by the dereference of the object found. *)
Definition getRoom (st : State) (key : string) : option (loc * Room) :=
  match rooms st !! key with
  | Some l => match heap st !! l with
              | Some room => Some (l, room)
              | None => None
              end
  | None => None
  end.

(** [rooms.get(v)] for an arbitrary JSON value: only a string can equal a
    key of the map. *)
Definition getRoomJs (st : State) (v : JsVal) : option (string * loc * Room) :=
  match v with
  | JStr key => match getRoom st key with
                | Some (l, room) => Some (key, l, room)
                | None => None
                end
  | _ => None
  end.

(** [clientRooms.get(ws)] tested by [if (roomId)]: the key when there is a
    binding and it is a truthy string. *)
Definition boundRoom (st : State) (ws : conn) : option string :=
  match clientRooms st !! ws with
  | Some roomId => if truthy (JStr roomId) then Some roomId else None
  | None => None
  end.

(** In-place mutation of the room object at [l]. *)
Definition setRoom (st : State) (l : loc) (room : Room) : State :=
  mkState (<[l := room]> (heap st)) (rooms st) (clientRooms st).

Definition withClients (room : Room) (cs : list conn) : Room :=
  mkRoom cs (messages room) (createdAt room).

Definition withMessages (room : Room) (ms : list Message) : Room :=
  mkRoom (clients room) ms (createdAt room).

(** ** Key generation *)

Definition hexDigit (n : N) : ascii :=
  if (n <? 10)%N then ascii_of_N (48 + n) else ascii_of_N (87 + n).

(** [Buffer.toString('hex')] of one byte: two lower-case digits. *)
Definition hexByte (b : Byte.byte) : string :=
  let n := Byte.to_N b in
  String (hexDigit (n / 16)) (String (hexDigit (n mod 16)) EmptyString).

Definition upperAscii (c : ascii) : ascii :=
  let n := N_of_ascii c in
  if ((97 <=? n) && (n <=? 122))%N then ascii_of_N (n - 32) else c.

Fixpoint toUpperCase (s : string) : string :=
  match s with
  | EmptyString => EmptyString
  | String c s' => String (upperAscii c) (toUpperCase s')
  end.

(** [crypto.randomBytes(4).toString('hex').toUpperCase()] *)
Definition generateRoomKey (env : Env) : string :=
  let '(b0, b1, b2, b3) := randomBytes env in
  toUpperCase (hexByte b0 +:+ hexByte b1 +:+ hexByte b2 +:+ hexByte b3).

(** ** Sending *)

Definition sendToClient (env : Env) (client : conn) (m : ServerMsg) : list Out :=
  if ready env client then [(client, m)] else [].

Definition broadcastToRoom (env : Env) (st : State) (roomId : string)
    (m : ServerMsg) (sender : conn) : list Out :=
  match getRoom st roomId with
  | None => []
  | Some (_, room) =>
      flat_map (λ client,
                 if bool_decide (client ≠ sender) && ready env client
                 then [(client, m)] else [])
               (clients room)
  end.

(** ** History *)

(** [arr.slice(-n)]: the last [n] elements, all of them when there are
    fewer. *)
Definition sliceLast {A} (n : nat) (arr : list A) : list A :=
  drop (length arr - n) arr.

(** Lines 147-152: push, then keep only the last 50. *)
Definition record (history : list Message) (m : Message) : list Message :=
  let pushed := history ++ [m] in
  if bool_decide (50 < length pushed) then sliceLast 50 pushed else pushed.

(** ** Registry updates *)

(** [rooms.delete(key)] *)
Definition deleteRoom (st : State) (key : string) : State :=
  mkState (heap st) (delete key (rooms st)) (clientRooms st).

(** [clientRooms.set(ws, key)] *)
Definition bindClient (st : State) (ws : conn) (key : string) : State :=
  mkState (heap st) (rooms st) (<[ws := key]> (clientRooms st)).

(** [clientRooms.delete(ws)] *)
Definition unbindClient (st : State) (ws : conn) : State :=
  mkState (heap st) (rooms st) (delete ws (clientRooms st)).

(** ** Handlers of [ws.on('message')] *)

(** [case 'create_room'] (lines 43-62).  The new room object is allocated
    at the next free address and stored under the generated key. *)
Definition handle_create_room (env : Env) (ws : conn) (st : State)
    : State * list Out :=
  let roomKey := generateRoomKey env in
  let newRoom := mkRoom [ws] [] (now env) in
  let l := length (heap st) in
  let st1 := mkState (heap st ++ [newRoom])
                     (<[roomKey := l]> (rooms st))
                     (clientRooms st) in
  let st2 := bindClient st1 ws roomKey in
  (st2, sendToClient env ws (room_created roomKey)).

(** Lines 78-88: the requester is taken out of the room it is bound to,
    and that room is removed from [rooms] when it has no member left.
    Nothing is sent. *)
Definition leaveCurrent (ws : conn) (st : State) : State :=
  match boundRoom st ws with
  | Some currentRoom =>
      match getRoom st currentRoom with
      | Some (l, room) =>
          let remaining := setDelete ws (clients room) in
          let st1 := setRoom st l (withClients room remaining) in
          if bool_decide (length remaining = 0)
          then deleteRoom st1 currentRoom
          else st1
      | None => st
      end
  | None => st
  end.

(** [case 'join_room'] (lines 64-116).  [existingRoom] is the reference
    [le] obtained before the current room is left; it is mutated and read
    through the heap afterwards, whether or not it is still in [rooms]. *)
Definition handle_join_room (env : Env) (ws : conn) (roomKey : JsVal)
    (st : State) : State * list Out :=
  match getRoomJs st roomKey with
  | None => (st, sendToClient env ws join_error)
  | Some (joinKey, le, _) =>
      let st1 := leaveCurrent ws st in
      match heap st1 !! le with
      | None => (st1, [])          (* a reference always holds an object *)
      | Some existingRoom =>
          let members := setAdd ws (clients existingRoom) in
          let st2 := setRoom st1 le (withClients existingRoom members) in
          let st3 := bindClient st2 ws joinKey in
          (st3,
           sendToClient env ws (room_joined joinKey (length members))
           ++ flat_map (λ msg, sendToClient env ws (message msg))
                       (sliceLast 10 (messages existingRoom))
           ++ broadcastToRoom env st3 joinKey
                (participant_joined (length members)) ws)
      end
  end.

(** [message.text.substring(0, 50)] of line 164 throws a [TypeError] unless
    [text] is a string. *)
Definition hasSubstring (v : JsVal) : bool :=
  match v with JStr _ => true | _ => false end.

(** [case 'send_message'] (lines 118-165).  When line 164 throws, the
    mutation and the broadcast have already happened and the [catch] block
    sends its reply. *)
Definition handle_send_message (env : Env) (ws : conn) (txt sndr : JsVal)
    (st : State) : State * list Out :=
  match boundRoom st ws with
  | None => (st, sendToClient env ws (error "Not in a room"))
  | Some roomId =>
      match getRoom st roomId with
      | None => (st, sendToClient env ws (error "Room not found"))
      | Some (l, room) =>
          let messageData :=
            mkMessage (randomUUID env) txt (now env)
                      (jsOr sndr (JStr "Anonymous")) in
          let room1 := withMessages room (record (messages room) messageData) in
          let st1 := setRoom st l room1 in
          (st1,
           flat_map (λ client,
                      if ready env client
                      then sendToClient env client (message messageData)
                      else [])
                    (clients room1)
           ++ (if hasSubstring txt then []
               else sendToClient env ws (error "Invalid message format")))
      end
  end.

(** Lines 170-185, and the same text at lines 220-235: the requester is
    removed from the room, the members left are told the new count, and the
    room is removed from [rooms] when it is empty. *)
Definition departRoom (env : Env) (ws : conn) (roomId : string) (st : State)
    : State * list Out :=
  match getRoom st roomId with
  | Some (l, room) =>
      let remaining := setDelete ws (clients room) in
      let st1 := setRoom st l (withClients room remaining) in
      let out := broadcastToRoom env st1 roomId
                   (participant_left (length remaining)) ws in
      (if bool_decide (length remaining = 0) then deleteRoom st1 roomId else st1,
       out)
  | None => (st, [])
  end.

(** [case 'leave_room'] (lines 167-193) *)
Definition handle_leave_room (env : Env) (ws : conn) (st : State)
    : State * list Out :=
  match boundRoom st ws with
  | Some leaveRoomId =>
      let '(st1, out) := departRoom env ws leaveRoomId st in
      (unbindClient st1 ws, out ++ sendToClient env ws room_left)
  | None => (st, [])
  end.

(** The [switch] of lines 42-205 with its [catch] block. *)
Definition handle_message (env : Env) (ws : conn) (m : ClientMsg) (st : State)
    : State * list Out :=
  match m with
  | malformed => (st, sendToClient env ws (error "Invalid message format"))
  | create_room => handle_create_room env ws st
  | join_room roomKey => handle_join_room env ws roomKey st
  | send_message txt sndr => handle_send_message env ws txt sndr st
  | leave_room => handle_leave_room env ws st
  | ping => (st, sendToClient env ws pong)
  | unknown_type => (st, sendToClient env ws (error "Unknown message type"))
  end.

(** ** The other events *)

(** [ws.on('close')] (lines 216-240) *)
Definition handle_close (env : Env) (ws : conn) (st : State)
    : State * list Out :=
  match boundRoom st ws with
  | Some roomId =>
      let '(st1, out) := departRoom env ws roomId st in
      (unbindClient st1 ws, out)
  | None => (st, [])
  end.

(** The test of line 260 on the room object at [l]. *)
Definition oldAndEmpty (env : Env) (st : State) (l : loc) : bool :=
  match heap st !! l with
  | Some room =>
      bool_decide (length (clients room) = 0)
      && bool_decide (createdAt room < now env - 60 * 60 * 1000)%Z
  | None => false
  end.

(** The callback of [setInterval] (lines 255-265) *)
Definition handle_interval (env : Env) (st : State) : State :=
  mkState (heap st)
          (filter (λ kl, oldAndEmpty env st kl.2 = false) (rooms st))
          (clientRooms st).

Inductive Event :=
| on_connection (ws : conn)
| on_message (ws : conn) (m : ClientMsg)
| on_close (ws : conn)
| on_interval.

Definition step (env : Env) (e : Event) (st : State) : State * list Out :=
  match e with
  | on_connection ws => (st, sendToClient env ws connected)
  | on_message ws m => handle_message env ws m st
  | on_close ws => handle_close env ws st
  | on_interval => (handle_interval env st, [])
  end.

(** The server's run over a sequence of events, each with the environment
    its handler observes; the sends are collected in order. *)
Fixpoint run (tr : list (Env * Event)) (st : State) : State * list Out :=
  match tr with
  | [] => (st, [])
  | (env, e) :: tr' =>
      let '(st1, out1) := step env e st in
      let '(st2, out2) := run tr' st1 in
      (st2, out1 ++ out2)
  end.

(** The states the server can be in. *)
Inductive reachable : State → Prop :=
| reachable_init : reachable init
| reachable_step st env e :
    reachable st → reachable (step env e st).1.

(** ** Properties of states and of output sequences *)

(** What every handler maintains: keys are eight characters long, a key of
    [rooms] holds an allocated room object, a [Set] has no repeated element
    and a history has at most fifty entries. *)
Record wf (st : State) : Prop := mkWf {
  wf_alloc : ∀ k l, rooms st !! k = Some l → l < length (heap st);
  wf_keys : ∀ k l, rooms st !! k = Some l → String.length k = 8;
  wf_bound : ∀ ws k, clientRooms st !! ws = Some k → String.length k = 8;
  wf_clients : ∀ l room, heap st !! l = Some room → NoDup (clients room);
  wf_history : ∀ l room, heap st !! l = Some room → length (messages room) ≤ 50
}.

(** The two registries agree: the members of a stored room are exactly the
    sockets bound to its key. *)
Definition agree (st : State) : Prop :=
  ∀ key l room, getRoom st key = Some (l, room) →
    ∀ ws, ws ∈ clients room ↔ clientRooms st !! ws = Some key.

(** How many times payload [m] was sent to socket [c]. *)
Definition copies (c : conn) (m : ServerMsg) (outs : list Out) : nat :=
  length (filter (λ o, o = (c, m)) outs).

(** The message object built by [send_message]. *)
Definition messageOf (env : Env) (txt sndr : JsVal) : Message :=
  mkMessage (randomUUID env) txt (now env) (jsOr sndr (JStr "Anonymous")).

(** ** Concrete environments and runs used below *)

Definition allOpen : conn → bool := λ _, true.

Definition envA : Env :=
  mkEnv allOpen (Byte.x1c, Byte.xab, Byte.x0f, Byte.xff) "uuid-1" 1000%Z.

Definition envB : Env :=
  mkEnv allOpen (Byte.x2d, Byte.x00, Byte.x9e, Byte.x41) "uuid-2" 2000%Z.

(** A later draw of the same four random bytes as [envA]. *)
Definition envC : Env :=
  mkEnv allOpen (Byte.x1c, Byte.xab, Byte.x0f, Byte.xff) "uuid-3" 3000%Z.

Definition keyA : string := "1CAB0FFF".
Definition keyB : string := "2D009E41".

Definition hello : Message :=
  mkMessage "uuid-1" (JStr "hi") 1000%Z (JStr "Anonymous").

(** Socket 1 connects and creates a room. *)
Definition trace_created : list (Env * Event) :=
  [(envA, on_connection 1); (envA, on_message 1 create_room)].

(** Then socket 2 connects and joins it. *)
Definition trace_two_members : list (Env * Event) :=
  trace_created
  ++ [(envB, on_connection 2); (envB, on_message 2 (join_room (JStr keyA)))].

(** Socket 1 creates a room and says hello in it. *)
Definition trace_spoken : list (Env * Event) :=
  trace_created
  ++ [(envA, on_message 1 (send_message (JStr "hi") JUndefined))].

(** Socket 1 creates a room and then joins its own room again. *)
Definition trace_rejoined : list (Env * Event) :=
  trace_created ++ [(envB, on_message 1 (join_room (JStr keyA)))].

(** Socket 1 creates a room and then creates a second one. *)
Definition trace_created_twice : list (Env * Event) :=
  trace_created ++ [(envB, on_message 1 create_room)].

Definition st_created : State := (run trace_created init).1.
Definition st_two_members : State := (run trace_two_members init).1.
Definition st_spoken : State := (run trace_spoken init).1.
Definition st_rejoined : State := (run trace_rejoined init).1.
Definition st_created_twice : State := (run trace_created_twice init).1.

(** Socket 1 creates a room and socket 2 creates another one. *)
Definition trace_two_rooms : list (Env * Event) :=
  trace_created
  ++ [(envB, on_connection 2); (envB, on_message 2 create_room)].

Definition st_two_rooms : State := (run trace_two_rooms init).1.

(** Then socket 3 connects and joins the room of socket 2. *)
Definition trace_three_sockets : list (Env * Event) :=
  trace_two_rooms
  ++ [(envB, on_connection 3); (envB, on_message 3 (join_room (JStr keyB)))].

Definition st_three_sockets : State := (run trace_three_sockets init).1.

(** An environment in which the transport of socket 2 is no longer open. *)
Definition envD : Env :=
  mkEnv (λ c, bool_decide (c ≠ 2)) (Byte.x00, Byte.x00, Byte.x00, Byte.x00)
        "uuid-4" 4000%Z.

(** ** Further properties of states and keys *)

(** Every stored room has a member, and no room object is stored under two
    keys. *)
Record tidy (st : State) : Prop := mkTidy {
  tidy_members : ∀ key l room,
    getRoom st key = Some (l, room) → clients room ≠ [];
  tidy_distinct : ∀ k1 k2 l,
    rooms st !! k1 = Some l → rooms st !! k2 = Some l → k1 = k2
}.

(** The characters [0-9A-F]. *)
Definition isUpperHex (c : ascii) : bool :=
  let n := N_of_ascii c in
  ((48 <=? n) && (n <=? 57) || (65 <=? n) && (n <=? 70))%N.

Fixpoint allUpperHex (s : string) : bool :=
  match s with
  | EmptyString => true
  | String c s' => isUpperHex c && allUpperHex s'
  end.

(** Every key in use, stored or bound, is written in [0-9A-F]. *)
Record keyed (st : State) : Prop := mkKeyed {
  keyed_rooms : ∀ k l, rooms st !! k = Some l → allUpperHex k = true;
  keyed_bound : ∀ ws k, clientRooms st !! ws = Some k → allUpperHex k = true
}.

(** The frames handled by the [send_message] case. *)
Definition isSendMessage (e : Event) : bool :=
  match e with
  | on_message _ (send_message _ _) => true
  | _ => false
  end.

(** ** Basic facts *)

Lemma generateRoomKey_length env : String.length (generateRoomKey env) = 8.
Proof.
  unfold generateRoomKey. destruct (randomBytes env) as [[[b0 b1] b2] b3].
  reflexivity.
Qed.

Lemma truthy_key (k : string) : String.length k = 8 → truthy (JStr k) = true.
Proof. destruct k; [discriminate | reflexivity]. Qed.

Lemma getRoom_Some st key l room :
  getRoom st key = Some (l, room) ↔
  rooms st !! key = Some l ∧ heap st !! l = Some room.
Proof.
  unfold getRoom. split.
  - destruct (rooms st !! key) as [l'|]; [|discriminate].
    destruct (heap st !! l') as [r'|] eqn:Hr; [|discriminate].
    intros [= <- <-]. done.
  - intros [H1 H2]. by rewrite H1, H2.
Qed.

Lemma getRoom_None st key : rooms st !! key = None → getRoom st key = None.
Proof. unfold getRoom. by intros ->. Qed.

Lemma NoDup_setDelete ws s : NoDup s → NoDup (setDelete ws s).
Proof. apply NoDup_filter. Qed.

Lemma NoDup_setAdd ws s : NoDup s → NoDup (setAdd ws s).
Proof.
  intros Hs. unfold setAdd. case_bool_decide as Hin; [done|].
  apply NoDup_app. split; [done|]. split.
  - intros x Hx Hx'. apply list_elem_of_singleton in Hx'. by subst.
  - apply NoDup_singleton.
Qed.

Lemma elem_of_setDelete c ws s : c ∈ setDelete ws s ↔ c ∈ s ∧ c ≠ ws.
Proof. unfold setDelete. rewrite list_elem_of_filter. tauto. Qed.

Lemma elem_of_setAdd c ws s : c ∈ setAdd ws s ↔ c ∈ s ∨ c = ws.
Proof.
  unfold setAdd. case_bool_decide as Hin.
  - split; [tauto|]. intros [?| ->]; done.
  - rewrite elem_of_app, list_elem_of_singleton. tauto.
Qed.

Lemma length_sliceLast {A} n (arr : list A) :
  length (sliceLast n arr) = min n (length arr).
Proof. unfold sliceLast. rewrite length_drop. lia. Qed.

Lemma sliceLast_suffix {A} n (arr : list A) :
  take (length arr - n) arr ++ sliceLast n arr = arr.
Proof. apply take_drop. Qed.

Lemma sliceLast_all {A} n (arr : list A) :
  length arr ≤ n → sliceLast n arr = arr.
Proof. intros H. unfold sliceLast. by replace (length arr - n) with 0 by lia. Qed.

Lemma sliceLast_app {A} n (arr tail : list A) :
  length tail ≤ n →
  sliceLast n (sliceLast n arr ++ tail) = sliceLast n (arr ++ tail).
Proof.
  intros Ht. unfold sliceLast.
  rewrite !length_app, length_drop.
  destruct (decide (length arr ≤ n)) as [Hle|Hgt].
  - replace (length arr - n) with 0 by lia. simpl. by rewrite Nat.sub_0_r.
  - rewrite drop_app_le by (rewrite length_drop; lia).
    rewrite drop_drop.
    rewrite (drop_app_le arr) by lia.
    f_equal. f_equal. lia.
Qed.

Lemma record_length history m : length (record history m) ≤ 50.
Proof.
  unfold record. case_bool_decide as H.
  - rewrite length_sliceLast. lia.
  - lia.
Qed.

Lemma record_sliceLast history m :
  record history m = sliceLast 50 (history ++ [m]).
Proof.
  unfold record. case_bool_decide as H; [done|].
  symmetry. apply sliceLast_all. lia.
Qed.

(** ** The handlers keep states well formed *)

Lemma wf_init : wf init.
Proof. split; simpl; intros *; try rewrite lookup_empty; done. Qed.

Lemma wf_setRoom st l room :
  wf st → NoDup (clients room) → length (messages room) ≤ 50 →
  wf (setRoom st l room).
Proof.
  intros [Ha Hk Hb Hc Hh] Hnd Hlen. split; simpl.
  - intros k l' Hl'. rewrite length_insert. eauto.
  - done.
  - done.
  - intros l' r' Hr'. apply list_lookup_insert_Some in Hr'.
    destruct Hr' as [(_ & <- & _)|[_ Hr']]; eauto.
  - intros l' r' Hr'. apply list_lookup_insert_Some in Hr'.
    destruct Hr' as [(_ & <- & _)|[_ Hr']]; eauto.
Qed.

Lemma wf_deleteRoom st key : wf st → wf (deleteRoom st key).
Proof.
  intros [Ha Hk Hb Hc Hh]. split; simpl; try done.
  - intros k l Hl. apply lookup_delete_Some in Hl as [_ Hl]. eauto.
  - intros k l Hl. apply lookup_delete_Some in Hl as [_ Hl]. eauto.
Qed.

Lemma wf_bindClient st ws key :
  wf st → String.length key = 8 → wf (bindClient st ws key).
Proof.
  intros [Ha Hk Hb Hc Hh] Hkey. split; simpl; try done.
  intros ws' k Hws'. apply lookup_insert_Some in Hws'.
  destruct Hws' as [[_ <-]|[_ Hws']]; eauto.
Qed.

Lemma wf_unbindClient st ws : wf st → wf (unbindClient st ws).
Proof.
  intros [Ha Hk Hb Hc Hh]. split; simpl; try done.
  intros ws' k Hws'. apply lookup_delete_Some in Hws' as [_ Hws']. eauto.
Qed.

(** Removing the requester from a room object keeps it well formed. *)
Lemma wf_removeMember st ws l room :
  wf st → heap st !! l = Some room →
  wf (setRoom st l (withClients room (setDelete ws (clients room)))).
Proof.
  intros Hwf Hroom. apply wf_setRoom; simpl; [done| |].
  - apply NoDup_setDelete. by eapply wf_clients.
  - by eapply wf_history.
Qed.

Lemma wf_leaveCurrent ws st : wf st → wf (leaveCurrent ws st).
Proof.
  intros Hwf. unfold leaveCurrent.
  destruct (boundRoom st ws) as [cur|]; [|done].
  destruct (getRoom st cur) as [[l room]|] eqn:Hget; [|done].
  apply getRoom_Some in Hget as [_ Hroom].
  case_bool_decide; [apply wf_deleteRoom|]; by apply wf_removeMember.
Qed.

Lemma wf_departRoom env ws roomId st :
  wf st → wf (departRoom env ws roomId st).1.
Proof.
  intros Hwf. unfold departRoom.
  destruct (getRoom st roomId) as [[l room]|] eqn:Hget; [|done].
  apply getRoom_Some in Hget as [_ Hroom]. simpl.
  case_bool_decide; [apply wf_deleteRoom|]; by apply wf_removeMember.
Qed.

Lemma wf_create_room env ws st :
  wf st → wf (handle_create_room env ws st).1.
Proof.
  intros [Ha Hk Hb Hc Hh]. unfold handle_create_room. simpl.
  apply wf_bindClient; [|apply generateRoomKey_length].
  split; simpl; try done.
  - intros k l Hl. rewrite length_app. simpl.
    apply lookup_insert_Some in Hl as [[_ <-]|[_ Hl]]; [lia|].
    apply Ha in Hl. lia.
  - intros k l Hl.
    apply lookup_insert_Some in Hl as [[<- _]|[_ Hl]]; eauto.
    apply generateRoomKey_length.
  - intros l room Hroom. apply lookup_app_Some in Hroom.
    destruct Hroom as [Hroom|[_ Hroom]]; [eauto|].
    apply list_lookup_singleton_Some in Hroom as [_ <-]. simpl.
    apply NoDup_singleton.
  - intros l room Hroom. apply lookup_app_Some in Hroom.
    destruct Hroom as [Hroom|[_ Hroom]]; [eauto|].
    apply list_lookup_singleton_Some in Hroom as [_ <-]. simpl. lia.
Qed.

Lemma wf_join_room env ws roomKey st :
  wf st → wf (handle_join_room env ws roomKey st).1.
Proof.
  intros Hwf. unfold handle_join_room.
  destruct (getRoomJs st roomKey) as [[[joinKey le] room0]|] eqn:Hget; [|done].
  assert (String.length joinKey = 8) as Hlen.
  { unfold getRoomJs in Hget. destruct roomKey as [| | | |key|]; try done.
    destruct (getRoom st key) as [[l r]|] eqn:Hg; [|done].
    injection Hget as <- <- <-.
    apply getRoom_Some in Hg as [Hg _]. by eapply wf_keys. }
  pose proof (wf_leaveCurrent ws st Hwf) as Hwf1.
  destruct (heap (leaveCurrent ws st) !! le) as [existingRoom|] eqn:He; [|done].
  simpl. apply wf_bindClient; [|done].
  apply wf_setRoom; simpl; [done| |].
  - apply NoDup_setAdd. by eapply wf_clients.
  - by eapply wf_history.
Qed.

Lemma wf_send_message env ws txt sndr st :
  wf st → wf (handle_send_message env ws txt sndr st).1.
Proof.
  intros Hwf. unfold handle_send_message.
  destruct (boundRoom st ws) as [roomId|]; [|done].
  destruct (getRoom st roomId) as [[l room]|] eqn:Hget; [|done].
  apply getRoom_Some in Hget as [_ Hroom]. simpl.
  apply wf_setRoom; simpl; [done| |].
  - by eapply wf_clients.
  - apply record_length.
Qed.

Lemma wf_leave_room env ws st :
  wf st → wf (handle_leave_room env ws st).1.
Proof.
  intros Hwf. unfold handle_leave_room.
  destruct (boundRoom st ws) as [roomId|]; [|done].
  pose proof (wf_departRoom env ws roomId st Hwf) as Hd.
  destruct (departRoom env ws roomId st) as [st1 out]. simpl in *.
  by apply wf_unbindClient.
Qed.

Lemma wf_close env ws st : wf st → wf (handle_close env ws st).1.
Proof.
  intros Hwf. unfold handle_close.
  destruct (boundRoom st ws) as [roomId|]; [|done].
  pose proof (wf_departRoom env ws roomId st Hwf) as Hd.
  destruct (departRoom env ws roomId st) as [st1 out]. simpl in *.
  by apply wf_unbindClient.
Qed.

Lemma wf_interval env st : wf st → wf (handle_interval env st).
Proof.
  intros [Ha Hk Hb Hc Hh]. split; simpl; try done.
  - intros k l Hl. apply map_lookup_filter_Some in Hl as [Hl _]. eauto.
  - intros k l Hl. apply map_lookup_filter_Some in Hl as [Hl _]. eauto.
Qed.

Lemma wf_step env e st : wf st → wf (step env e st).1.
Proof.
  intros Hwf. destruct e as [ws|ws m|ws|]; simpl.
  - done.
  - destruct m; simpl; try done.
    + by apply wf_create_room.
    + by apply wf_join_room.
    + by apply wf_send_message.
    + by apply wf_leave_room.
  - by apply wf_close.
  - by apply wf_interval.
Qed.

Lemma reachable_wf st : reachable st → wf st.
Proof.
  induction 1 as [|st env e _ IH]; [apply wf_init | by apply wf_step].
Qed.

Lemma reachable_run tr st : reachable st → reachable (run tr st).1.
Proof.
  revert st. induction tr as [|[env e] tr IH]; intros st Hst; [done|].
  simpl. pose proof (reachable_step st env e Hst) as H1.
  destruct (step env e st) as [st1 out1]. simpl in H1.
  specialize (IH st1 H1). by destruct (run tr st1).
Qed.

(** ** History (C4) *)

Lemma foldl_record history msgs :
  length history ≤ 50 →
  foldl record history msgs = sliceLast 50 (history ++ msgs).
Proof.
  intros Hlen. induction msgs as [|m msgs IH] using rev_ind.
  - simpl. rewrite app_nil_r. symmetry. by apply sliceLast_all.
  - rewrite foldl_app. simpl. rewrite IH, record_sliceLast.
    rewrite sliceLast_app by (simpl; lia). by rewrite app_assoc.
Qed.

Lemma send_message_records env ws txt sndr st roomId l room :
  boundRoom st ws = Some roomId →
  getRoom st roomId = Some (l, room) →
  heap (handle_send_message env ws txt sndr st).1 !! l =
    Some (withMessages room (record (messages room) (messageOf env txt sndr))).
Proof.
  intros Hb Hg. unfold handle_send_message. rewrite Hb, Hg. simpl.
  apply getRoom_Some in Hg as [_ Hroom].
  apply list_lookup_insert_eq. by eapply lookup_lt_Some.
Qed.

(** C4. The history of a room never holds more than 50 messages: this is
    so for every room object of every state the server can reach, and for
    every sequence [msgs] of messages recorded into it from there on the
    history is the last 50 of everything recorded, in recording order.  In
    particular a room that starts empty, as every created room does, holds
    after more than 50 recordings exactly the 50 most recent ones, oldest
    first.  Recording is what [send_message] does to the history of the
    sender's room. *)
Theorem C4_history_keeps_last_fifty st l room (msgs : list Message) :
  reachable st →
  heap st !! l = Some room →
  length (messages room) ≤ 50
  ∧ length (foldl record (messages room) msgs) ≤ 50
  ∧ foldl record (messages room) msgs = sliceLast 50 (messages room ++ msgs)
  ∧ foldl record [] msgs = sliceLast 50 msgs
  ∧ (50 < length msgs →
     length (foldl record [] msgs) = 50
     ∧ take (length msgs - 50) msgs ++ foldl record [] msgs = msgs)
  ∧ (∀ env ws txt sndr roomId,
       boundRoom st ws = Some roomId →
       getRoom st roomId = Some (l, room) →
       heap (handle_send_message env ws txt sndr st).1 !! l
       = Some (withMessages room
                 (record (messages room) (messageOf env txt sndr)))).
Proof.
  intros Hreach Hroom.
  assert (length (messages room) ≤ 50) as Hlen
    by (eapply wf_history; [by apply reachable_wf | done]).
  assert (foldl record [] msgs = sliceLast 50 msgs) as Hnew
    by (rewrite foldl_record by (simpl; lia); done).
  split; [done|]. split.
  { rewrite foldl_record by done. rewrite length_sliceLast. lia. }
  split; [by apply foldl_record|]. split; [done|]. split.
  - intros Hmany. rewrite Hnew. split.
    + rewrite length_sliceLast. lia.
    + apply sliceLast_suffix.
  - intros env ws txt sndr roomId Hb Hg. by eapply send_message_records.
Qed.

(** ** Requests that change nothing (C7, C8, C9, C10) *)

(** C7. [join_room] with a key that is not in [rooms] sends one
    [join_error] to the requester and leaves the whole state (bindings,
    memberships, rooms and histories) as it was. *)
Theorem C7_join_unknown_room_changes_nothing env ws st roomKey :
  (∀ key, roomKey = JStr key → rooms st !! key = None) →
  ready env ws = true →
  handle_join_room env ws roomKey st = (st, [(ws, join_error)]).
Proof.
  intros Habsent Hopen. unfold handle_join_room.
  assert (getRoomJs st roomKey = None) as ->.
  { destruct roomKey as [| | | |key|]; try done. simpl.
    by rewrite getRoom_None by eauto. }
  unfold sendToClient. by rewrite Hopen.
Qed.

(** C8. [send_message] from a socket with no binding sends one typed
    [error] to that socket and leaves the whole state as it was. *)
Theorem C8_send_while_idle_changes_nothing env ws txt sndr st :
  clientRooms st !! ws = None →
  ready env ws = true →
  handle_send_message env ws txt sndr st
  = (st, [(ws, error "Not in a room")]).
Proof.
  intros Hidle Hopen. unfold handle_send_message, boundRoom.
  rewrite Hidle. unfold sendToClient. by rewrite Hopen.
Qed.

Lemma leave_room_unbinds env ws st :
  boundRoom (handle_leave_room env ws st).1 ws = None.
Proof.
  unfold handle_leave_room.
  destruct (boundRoom st ws) as [roomId|] eqn:Hb; [|done].
  destruct (departRoom env ws roomId st) as [st1 out]. simpl.
  unfold boundRoom, unbindClient. simpl. by rewrite lookup_delete_eq.
Qed.

(** C9. A second [leave_room] in a row finds the socket idle: it sends
    nothing and changes nothing, so two leaves produce exactly the state
    and the sends of the first. *)
Theorem C9_leave_room_twice env1 env2 ws st :
  boundRoom (handle_leave_room env1 ws st).1 ws = None
  ∧ handle_leave_room env2 ws (handle_leave_room env1 ws st).1
    = ((handle_leave_room env1 ws st).1, [])
  ∧ run [(env1, on_message ws leave_room); (env2, on_message ws leave_room)] st
    = run [(env1, on_message ws leave_room)] st.
Proof.
  pose proof (leave_room_unbinds env1 ws st) as Hidle.
  assert (handle_leave_room env2 ws (handle_leave_room env1 ws st).1
          = ((handle_leave_room env1 ws st).1, [])) as Hsecond
    by (unfold handle_leave_room at 1; by rewrite Hidle).
  split; [done|]. split; [done|].
  simpl. destruct (handle_leave_room env1 ws st) as [st1 out1].
  simpl in Hsecond. by rewrite Hsecond.
Qed.

(** C10. [send_message] from a socket whose binding names a key that is
    not in [rooms] sends one typed [error] ('Room not found') to that
    socket and leaves the whole state as it was. *)
Theorem C10_send_with_stale_binding env ws txt sndr st key :
  reachable st →
  clientRooms st !! ws = Some key →
  rooms st !! key = None →
  ready env ws = true →
  handle_send_message env ws txt sndr st
  = (st, [(ws, error "Room not found")]).
Proof.
  intros Hreach Hbound Habsent Hopen.
  unfold handle_send_message, boundRoom. rewrite Hbound.
  rewrite truthy_key
    by (eapply wf_bound; [by apply reachable_wf | done]).
  rewrite getRoom_None by done.
  unfold sendToClient. by rewrite Hopen.
Qed.

(** ** Leaving the current room inside [join_room] *)

(** What lines 78-88 do to the state. *)
Lemma leaveCurrent_cases ws st :
  leaveCurrent ws st = st
  ∨ ∃ cur l room,
      boundRoom st ws = Some cur
      ∧ rooms st !! cur = Some l
      ∧ heap st !! l = Some room
      ∧ let st1 := setRoom st l (withClients room (setDelete ws (clients room))) in
        (setDelete ws (clients room) ≠ [] ∧ leaveCurrent ws st = st1)
        ∨ (setDelete ws (clients room) = []
           ∧ leaveCurrent ws st = deleteRoom st1 cur).
Proof.
  unfold leaveCurrent.
  destruct (boundRoom st ws) as [cur|] eqn:Hb; [|by left].
  destruct (getRoom st cur) as [[l room]|] eqn:Hg; [|by left].
  apply getRoom_Some in Hg as [Hl Hroom].
  right. exists cur, l, room. do 3 (split; [done|]). simpl.
  case_bool_decide as Hempty.
  - right. split; [|done]. by apply length_zero_iff_nil.
  - left. split; [|done]. intros Hnil. by rewrite Hnil in Hempty.
Qed.

(** A room object keeps its history and creation time, and its members
    other than the requester. *)
Lemma leaveCurrent_heap ws st l room :
  heap st !! l = Some room →
  ∃ room1,
    heap (leaveCurrent ws st) !! l = Some room1
    ∧ messages room1 = messages room
    ∧ (clients room1 = clients room
       ∨ clients room1 = setDelete ws (clients room)).
Proof.
  intros Hroom.
  destruct (leaveCurrent_cases ws st)
    as [->|(cur & l' & room' & _ & _ & Hroom' & Hcases)].
  { exists room. eauto. }
  simpl in Hcases.
  assert (∃ room1,
    <[l' := withClients room' (setDelete ws (clients room'))]> (heap st) !! l
      = Some room1
    ∧ messages room1 = messages room
    ∧ (clients room1 = clients room
       ∨ clients room1 = setDelete ws (clients room))) as Hgoal.
  { destruct (decide (l' = l)) as [->|Hne].
    - rewrite list_lookup_insert_eq by (by eapply lookup_lt_Some).
      assert (room' = room) as -> by congruence.
      eexists. split; [done|]. simpl. eauto.
    - rewrite list_lookup_insert_ne by done. exists room. eauto. }
  destruct Hcases as [[_ ->]|[_ ->]]; exact Hgoal.
Qed.

(** A key is still in [rooms] afterwards unless its room has just lost its
    last member. *)
Lemma leaveCurrent_rooms ws st key l :
  rooms st !! key = Some l →
  rooms (leaveCurrent ws st) !! key = Some l
  ∨ (rooms (leaveCurrent ws st) !! key = None
     ∧ ∃ room, heap st !! l = Some room ∧ setDelete ws (clients room) = []).
Proof.
  intros Hl.
  destruct (leaveCurrent_cases ws st)
    as [->|(cur & l' & room' & _ & Hl' & Hroom' & Hcases)]; [by left|].
  simpl in Hcases. destruct Hcases as [[_ ->]|[Hnil ->]]; simpl; [by left|].
  destruct (decide (cur = key)) as [->|Hne].
  - right. rewrite lookup_delete_eq. split; [done|].
    assert (l' = l) as -> by congruence. eauto.
  - left. by rewrite lookup_delete_ne.
Qed.

(** ** Replies and notices *)

Lemma sendToClient_open env ws m :
  ready env ws = true → sendToClient env ws m = [(ws, m)].
Proof. unfold sendToClient. by intros ->. Qed.

Lemma replay_open env ws (msgs : list Message) :
  ready env ws = true →
  flat_map (λ msg, sendToClient env ws (message msg)) msgs
  = map (λ msg, (ws, message msg)) msgs.
Proof.
  intros Hopen. induction msgs as [|m msgs IH]; [done|].
  simpl. by rewrite IH, sendToClient_open.
Qed.

Lemma fanout_others env sender m (cs : list conn) :
  Forall (λ o : Out, o.1 ≠ sender ∧ o.2 = m)
    (flat_map (λ client,
                 if bool_decide (client ≠ sender) && ready env client
                 then [(client, m)] else []) cs).
Proof.
  induction cs as [|c cs IH]; simpl; [constructor|].
  apply Forall_app. split; [|done].
  case_bool_decide; simpl; [|constructor].
  destruct (ready env c); constructor; [done|constructor].
Qed.

Lemma broadcastToRoom_others env st roomId m sender :
  Forall (λ o : Out, o.1 ≠ sender ∧ o.2 = m)
    (broadcastToRoom env st roomId m sender).
Proof.
  unfold broadcastToRoom.
  destruct (getRoom st roomId) as [[l room]|]; [|constructor].
  apply fanout_others.
Qed.

(** C5. A socket that joins an existing room is sent [room_joined] and,
    right after it, the last [min 10 historyLength] messages of the room's
    history, oldest first; these go to the joining socket, and whatever is
    sent after them are the [participant_joined] notices to other sockets. *)
Theorem C5_join_replays_recent_history env ws st key l room :
  ready env ws = true →
  getRoom st key = Some (l, room) →
  ∃ count notices,
    (handle_join_room env ws (JStr key) st).2
    = (ws, room_joined key count)
      :: map (λ msg, (ws, message msg)) (sliceLast 10 (messages room))
      ++ notices
    ∧ length (sliceLast 10 (messages room)) = min 10 (length (messages room))
    ∧ take (length (messages room) - 10) (messages room)
      ++ sliceLast 10 (messages room) = messages room
    ∧ Forall (λ o : Out, o.1 ≠ ws ∧ o.2 = participant_joined count) notices.
Proof.
  intros Hopen Hget. unfold handle_join_room, getRoomJs. rewrite Hget.
  apply getRoom_Some in Hget as [Hl Hroom].
  destruct (leaveCurrent_heap ws st l room Hroom)
    as (room1 & -> & Hmsgs & _).
  cbn [snd]. rewrite Hmsgs, sendToClient_open, replay_open by done.
  eexists _, _. split; [reflexivity|].
  split; [apply length_sliceLast|].
  split; [apply sliceLast_suffix|].
  apply broadcastToRoom_others.
Qed.

(** ** Counting deliveries *)

Lemma copies_app c m (a b : list Out) :
  copies c m (a ++ b) = copies c m a + copies c m b.
Proof. unfold copies. by rewrite filter_app, length_app. Qed.

Lemma copies_none c m (outs : list Out) :
  Forall (λ o, o ≠ (c, m)) outs → copies c m outs = 0.
Proof.
  unfold copies. induction 1 as [|o outs Ho _ IH]; [done|].
  by rewrite filter_cons_False.
Qed.

Lemma copies_fanout_none (f : conn → bool) c m m' (cs : list conn) :
  c ∉ cs ∨ f c = false →
  copies c m' (flat_map (λ client, if f client then [(client, m)] else []) cs)
  = 0.
Proof.
  intros Hc. apply copies_none. induction cs as [|x cs IH]; simpl; [constructor|].
  apply Forall_app. split.
  - destruct (f x) eqn:Hfx; constructor; [|constructor].
    intros [= -> _]. destruct Hc as [Hc|Hc]; [|congruence].
    apply Hc. left.
  - apply IH. destruct Hc as [Hc|Hc]; [left|by right].
    intros Hin. apply Hc. by right.
Qed.

Lemma copies_fanout_member (f : conn → bool) c m (cs : list conn) :
  NoDup cs → c ∈ cs → f c = true →
  copies c m (flat_map (λ client, if f client then [(client, m)] else []) cs)
  = 1.
Proof.
  intros Hnd Hin Hfc. induction Hnd as [|x cs Hx Hnd IH]; [by inversion Hin|].
  simpl. rewrite copies_app.
  destruct (decide (x = c)) as [->|Hne].
  - rewrite Hfc. rewrite (copies_fanout_none f c m m cs) by (by left).
    unfold copies. by rewrite filter_cons_True.
  - rewrite IH by (apply elem_of_cons in Hin as [?|?]; [congruence|done]).
    rewrite copies_none; [done|].
    destruct (f x); constructor; [|constructor]. congruence.
Qed.

Lemma chat_fanout env m (cs : list conn) :
  flat_map (λ client,
             if ready env client
             then sendToClient env client (message m) else []) cs
  = flat_map (λ client, if ready env client then [(client, message m)] else [])
             cs.
Proof.
  induction cs as [|c cs IH]; [done|]. simpl. rewrite IH.
  unfold sendToClient. by destruct (ready env c).
Qed.

Lemma setDelete_notin ws (cs : list conn) : ws ∉ cs → setDelete ws cs = cs.
Proof.
  intros Hnotin. unfold setDelete. induction cs as [|c cs IH]; [done|].
  apply not_elem_of_cons in Hnotin as [Hne Hnotin].
  rewrite filter_cons_True by done. by rewrite IH.
Qed.

Lemma length_setDelete_in ws (cs : list conn) :
  NoDup cs → ws ∈ cs → S (length (setDelete ws cs)) = length cs.
Proof.
  intros Hnd Hin. unfold setDelete.
  induction Hnd as [|c cs Hc Hnd IH]; [by inversion Hin|].
  destruct (decide (c = ws)) as [->|Hne].
  - rewrite filter_cons_False by (intros H; by apply H).
    fold (setDelete ws cs). by rewrite setDelete_notin.
  - rewrite filter_cons_True by done. simpl. rewrite IH; [done|].
    apply elem_of_cons in Hin as [?|?]; [congruence|done].
Qed.

(** Leaving and coming back gives the same number of members as coming. *)
Lemma length_setAdd_setDelete ws (cs : list conn) :
  NoDup cs → length (setAdd ws (setDelete ws cs)) = length (setAdd ws cs).
Proof.
  intros Hnd. destruct (decide (ws ∈ cs)) as [Hin|Hnotin].
  - unfold setAdd at 2. rewrite bool_decide_eq_true_2 by done.
    unfold setAdd. rewrite bool_decide_eq_false_2.
    + rewrite length_app. simpl. rewrite <- (length_setDelete_in ws cs) by done.
      lia.
    + rewrite elem_of_setDelete. tauto.
  - by rewrite setDelete_notin.
Qed.

(** ** Who receives a broadcast (C6) *)

Lemma chat_reaches_members env ws txt sndr st roomId l room c :
  wf st →
  boundRoom st ws = Some roomId →
  getRoom st roomId = Some (l, room) →
  c ∈ clients room → ready env c = true →
  copies c (message (messageOf env txt sndr))
         (handle_send_message env ws txt sndr st).2 = 1.
Proof.
  intros Hwf Hb Hg Hc Hopen. unfold handle_send_message.
  rewrite Hb, Hg. cbn [snd withMessages clients].
  apply getRoom_Some in Hg as [_ Hroom].
  rewrite copies_app, chat_fanout.
  fold (messageOf env txt sndr).
  rewrite (copies_fanout_member (ready env)); [|by eapply wf_clients|done..].
  rewrite copies_none; [done|].
  destruct (hasSubstring txt); [constructor|].
  unfold sendToClient. destruct (ready env ws); repeat constructor. done.
Qed.

Lemma joined_reaches_others env ws st roomId l room c :
  wf st →
  getRoom st roomId = Some (l, room) →
  c ∈ clients room → c ≠ ws → ready env c = true →
  copies c (participant_joined (length (setAdd ws (clients room))))
         (handle_join_room env ws (JStr roomId) st).2 = 1.
Proof.
  intros Hwf Hg Hc Hne Hopen. unfold handle_join_room, getRoomJs. rewrite Hg.
  apply getRoom_Some in Hg as [Hl Hroom].
  pose proof (wf_clients st Hwf l room Hroom) as Hnd.
  destruct (leaveCurrent_heap ws st l room Hroom)
    as (room1 & Hroom1 & _ & Hclients).
  rewrite Hroom1. cbn [snd].
  assert (length (setAdd ws (clients room1))
          = length (setAdd ws (clients room))) as ->.
  { destruct Hclients as [->| ->]; [done|].
    by apply length_setAdd_setDelete. }
  assert (c ∈ setAdd ws (clients room1)) as Hmember.
  { apply elem_of_setAdd. left.
    destruct Hclients as [->| ->]; [done|]. by apply elem_of_setDelete. }
  assert (NoDup (setAdd ws (clients room1))) as Hnd1.
  { apply NoDup_setAdd.
    destruct Hclients as [->| ->]; [done|]. by apply NoDup_setDelete. }
  rewrite !copies_app.
  rewrite (copies_none c _ (sendToClient _ _ _)); cycle 1.
  { unfold sendToClient. destruct (ready env ws); repeat constructor. done. }
  rewrite (copies_none c _ (flat_map _ _)); cycle 1.
  { apply Forall_flat_map, Forall_forall. intros msg _.
    unfold sendToClient. destruct (ready env ws); repeat constructor. done. }
  simpl. unfold broadcastToRoom, getRoom. simpl.
  destruct (leaveCurrent_rooms ws st roomId l Hl)
    as [->|[_ (room' & Hroom' & Hnil)]].
  - rewrite list_lookup_insert_eq by (by eapply lookup_lt_Some).
    simpl.
    apply (copies_fanout_member
             (λ client, bool_decide (client ≠ ws) && ready env client));
      [done..|].
    by rewrite bool_decide_eq_true_2, Hopen.
  - assert (room' = room) as -> by congruence.
    assert (c ∈ setDelete ws (clients room)) as Hin
      by (by apply elem_of_setDelete).
    rewrite Hnil in Hin. by inversion Hin.
Qed.

Lemma joined_skips_requester env ws st roomKey n :
  copies ws (participant_joined n) (handle_join_room env ws roomKey st).2 = 0.
Proof.
  apply copies_none. unfold handle_join_room.
  destruct (getRoomJs st roomKey) as [[[joinKey le] room0]|]; cbn [snd].
  - destruct (heap (leaveCurrent ws st) !! le) as [room1|];
      cbn [snd]; [|constructor].
    apply Forall_app. split.
    { unfold sendToClient. destruct (ready env ws); repeat constructor. done. }
    apply Forall_app. split.
    { apply Forall_flat_map, Forall_forall. intros msg _.
      unfold sendToClient. destruct (ready env ws); repeat constructor. done. }
    eapply Forall_impl; [apply broadcastToRoom_others|].
    intros [c m] [Hc _] [= -> _]. by apply Hc.
  - unfold sendToClient. destruct (ready env ws); repeat constructor. done.
Qed.

Lemma depart_reaches_others env ws st roomId l room c :
  wf st →
  getRoom st roomId = Some (l, room) →
  c ∈ clients room → c ≠ ws → ready env c = true →
  copies c (participant_left (length (setDelete ws (clients room))))
         (departRoom env ws roomId st).2 = 1.
Proof.
  intros Hwf Hg Hc Hne Hopen. unfold departRoom. rewrite Hg. cbn [snd].
  apply getRoom_Some in Hg as [Hl Hroom].
  unfold broadcastToRoom, getRoom. simpl. rewrite Hl.
  rewrite list_lookup_insert_eq by (by eapply lookup_lt_Some). simpl.
  apply (copies_fanout_member
           (λ client, bool_decide (client ≠ ws) && ready env client)).
  - apply NoDup_setDelete. by eapply wf_clients.
  - by apply elem_of_setDelete.
  - by rewrite bool_decide_eq_true_2, Hopen.
Qed.

Lemma depart_skips_requester env ws st roomId n :
  copies ws (participant_left n) (departRoom env ws roomId st).2 = 0.
Proof.
  apply copies_none. unfold departRoom.
  destruct (getRoom st roomId) as [[l room]|]; cbn [snd]; [|constructor].
  eapply Forall_impl; [apply broadcastToRoom_others|].
  intros [c m] [Hc _] [= -> _]. by apply Hc.
Qed.

Lemma leave_room_out env ws st roomId :
  boundRoom st ws = Some roomId →
  (handle_leave_room env ws st).2
  = (departRoom env ws roomId st).2 ++ sendToClient env ws room_left.
Proof.
  intros Hb. unfold handle_leave_room. rewrite Hb.
  by destruct (departRoom env ws roomId st).
Qed.

Lemma close_out env ws st roomId :
  boundRoom st ws = Some roomId →
  (handle_close env ws st).2 = (departRoom env ws roomId st).2.
Proof.
  intros Hb. unfold handle_close. rewrite Hb.
  by destruct (departRoom env ws roomId st).
Qed.

Lemma room_left_is_no_notice env ws c n :
  copies c (participant_left n) (sendToClient env ws room_left) = 0.
Proof.
  apply copies_none. unfold sendToClient.
  destruct (ready env ws); repeat constructor. done.
Qed.

(** C6. In a state the server can reach, for a room stored under [roomId]:
    a chat message sent by a socket bound to the room is delivered exactly
    once to every member whose transport is open, the sender being treated
    like any other member; the [participant_joined] notice of a join and
    the [participant_left] notice of a leave or a close are delivered
    exactly once to every member with an open transport other than the
    socket that joined or left, and never to that socket. *)
Theorem C6_broadcast_recipients env ws st roomId l room :
  reachable st →
  getRoom st roomId = Some (l, room) →
  (boundRoom st ws = Some roomId →
   ∀ txt sndr c, c ∈ clients room → ready env c = true →
     copies c (message (messageOf env txt sndr))
            (handle_send_message env ws txt sndr st).2 = 1)
  ∧ (∀ c, c ∈ clients room → c ≠ ws → ready env c = true →
       copies c (participant_joined (length (setAdd ws (clients room))))
              (handle_join_room env ws (JStr roomId) st).2 = 1)
  ∧ (∀ n, copies ws (participant_joined n)
                 (handle_join_room env ws (JStr roomId) st).2 = 0)
  ∧ (boundRoom st ws = Some roomId →
     (∀ c, c ∈ clients room → c ≠ ws → ready env c = true →
        copies c (participant_left (length (setDelete ws (clients room))))
               (handle_leave_room env ws st).2 = 1
        ∧ copies c (participant_left (length (setDelete ws (clients room))))
                 (handle_close env ws st).2 = 1)
     ∧ (∀ n, copies ws (participant_left n) (handle_leave_room env ws st).2 = 0
             ∧ copies ws (participant_left n) (handle_close env ws st).2 = 0)).
Proof.
  intros Hreach Hg. pose proof (reachable_wf st Hreach) as Hwf.
  split; [|split; [|split]].
  - intros Hb txt sndr c Hc Hopen. by eapply chat_reaches_members.
  - intros c Hc Hne Hopen. by eapply joined_reaches_others.
  - intros n. apply joined_skips_requester.
  - intros Hb. split.
    + intros c Hc Hne Hopen.
      rewrite (leave_room_out env ws st roomId Hb), copies_app.
      rewrite (close_out env ws st roomId Hb), room_left_is_no_notice.
      rewrite (depart_reaches_others env ws st roomId l room c) by done.
      done.
    + intros n.
      rewrite (leave_room_out env ws st roomId Hb), copies_app.
      rewrite (close_out env ws st roomId Hb), room_left_is_no_notice.
      by rewrite depart_skips_requester.
Qed.

(** ** Creating a room (C1, C2, C3) *)

Lemma create_room_keeps_rooms env ws st k l room :
  k ≠ generateRoomKey env →
  getRoom st k = Some (l, room) →
  getRoom (handle_create_room env ws st).1 k = Some (l, room).
Proof.
  intros Hne Hg. apply getRoom_Some in Hg as [Hl Hroom].
  apply getRoom_Some. simpl. split.
  - by rewrite lookup_insert_ne.
  - by apply lookup_app_l_Some.
Qed.

Lemma create_room_out env ws st c n :
  copies c (participant_left n) (handle_create_room env ws st).2 = 0.
Proof.
  apply copies_none. simpl. unfold sendToClient.
  destruct (ready env ws); repeat constructor. done.
Qed.

(** C1, as the code has it.  [create_room] from a socket that is a member
    of the room stored under [oldKey] does not touch that room: it is still
    stored afterwards, with the same members (the requester among them) and
    the same history, nobody is sent [participant_left], and the requester
    is in addition the only member of the new room, to which it is now
    bound. *)
Theorem C1_create_room_keeps_old_membership env ws st oldKey l room :
  clientRooms st !! ws = Some oldKey →
  getRoom st oldKey = Some (l, room) →
  ws ∈ clients room →
  generateRoomKey env ≠ oldKey →
  getRoom (handle_create_room env ws st).1 oldKey = Some (l, room)
  ∧ getRoom (handle_create_room env ws st).1 (generateRoomKey env)
    = Some (length (heap st), mkRoom [ws] [] (now env))
  ∧ clientRooms (handle_create_room env ws st).1 !! ws
    = Some (generateRoomKey env)
  ∧ ∀ c n, copies c (participant_left n) (handle_create_room env ws st).2 = 0.
Proof.
  intros Hb Hg Hin Hne. split; [|split; [|split]].
  - by apply create_room_keeps_rooms.
  - apply getRoom_Some. simpl. rewrite lookup_insert_eq. split; [done|].
    by rewrite lookup_app_r, Nat.sub_diag.
  - simpl. by rewrite lookup_insert_eq.
  - intros c n. apply create_room_out.
Qed.

Lemma C1_create_room_keeps_old_membership_witness :
  clientRooms st_created !! 1 = Some keyA
  ∧ getRoom (handle_create_room envB 1 st_created).1 keyA
    = Some (0, mkRoom [1] [] 1000%Z)
  ∧ getRoom (handle_create_room envB 1 st_created).1 keyB
    = Some (1, mkRoom [1] [] 2000%Z)
  ∧ clientRooms (handle_create_room envB 1 st_created).1 !! 1 = Some keyB.
Proof.
  split; [reflexivity|].
  destruct (C1_create_room_keeps_old_membership
              envB 1 st_created keyA 0 (mkRoom [1] [] 1000%Z))
    as (Hold & Hnew & Hbound & _).
  - reflexivity.
  - reflexivity.
  - vm_compute. left.
  - vm_compute. discriminate.
  - split; [exact Hold|]. split; [exact Hnew|]. exact Hbound.
Defined.

(** C2, as the code has it.  After socket 1 has created two rooms in a row
    the state, which the server reaches, has the first room still listing
    socket 1 as a member while socket 1 is bound to the second room's key:
    the registries do not agree. *)
Theorem C2_registries_disagree_after_second_create :
  reachable st_created_twice
  ∧ getRoom st_created_twice keyA = Some (0, mkRoom [1] [] 1000%Z)
  ∧ clientRooms st_created_twice !! 1 = Some keyB
  ∧ ¬ agree st_created_twice.
Proof.
  split; [apply (reachable_run trace_created_twice init reachable_init)|].
  split; [reflexivity|]. split; [reflexivity|].
  intros Hagree.
  specialize (Hagree keyA 0 (mkRoom [1] [] 1000%Z) eq_refl 1).
  destruct Hagree as [Hbound _].
  assert (clientRooms st_created_twice !! 1 = Some keyA) as Habs
    by (apply Hbound; simpl; left).
  vm_compute in Habs. discriminate.
Qed.

(** C3, as the code has it.  Socket 1 has created the room [keyA] and
    spoken in it; when the generator draws the same bytes again for socket
    2, [create_room] does not look the key up: it answers with that same
    key and the room stored under it is a new one, from which socket 1 and
    the recorded message are gone. *)
Lemma C3_collision_replaces_room :
  reachable st_spoken
  ∧ getRoom st_spoken keyA = Some (0, mkRoom [1] [hello] 1000%Z)
  ∧ generateRoomKey envC = keyA
  ∧ (handle_create_room envC 2 st_spoken).2 = [(2, room_created keyA)]
  ∧ getRoom (handle_create_room envC 2 st_spoken).1 keyA
    = Some (1, mkRoom [2] [] 3000%Z)
  ∧ getRoom (handle_create_room envC 2 st_spoken).1 keyA
    ≠ getRoom st_spoken keyA.
Proof.
  split; [apply (reachable_run trace_spoken init reachable_init)|].
  repeat split; try reflexivity.
  vm_compute. discriminate.
Qed.

(** ** The theorems at concrete runs *)

Lemma C4_history_keeps_last_fifty_witness :
  reachable st_spoken
  ∧ heap st_spoken !! 0 = Some (mkRoom [1] [hello] 1000%Z)
  ∧ foldl record [hello] [hello; hello] = sliceLast 50 [hello; hello; hello]
  ∧ length (foldl record [hello] [hello; hello]) ≤ 50.
Proof.
  assert (reachable st_spoken) as Hreach
    by apply (reachable_run trace_spoken init reachable_init).
  split; [exact Hreach|]. split; [reflexivity|].
  destruct (C4_history_keeps_last_fifty
              st_spoken 0 (mkRoom [1] [hello] 1000%Z) [hello; hello])
    as (_ & Hlen & Hlast & _).
  - exact Hreach.
  - reflexivity.
  - split; [exact Hlast | exact Hlen].
Defined.

Lemma C5_join_replays_recent_history_witness :
  ready envB 2 = true
  ∧ getRoom st_spoken keyA = Some (0, mkRoom [1] [hello] 1000%Z)
  ∧ ∃ count notices,
      (handle_join_room envB 2 (JStr keyA) st_spoken).2
      = (2, room_joined keyA count) :: [(2, message hello)] ++ notices
      ∧ Forall (λ o : Out, o.1 ≠ 2 ∧ o.2 = participant_joined count) notices.
Proof.
  split; [reflexivity|]. split; [reflexivity|].
  destruct (C5_join_replays_recent_history
              envB 2 st_spoken keyA 0 (mkRoom [1] [hello] 1000%Z))
    as (count & notices & Hout & _ & _ & Hnotices).
  - reflexivity.
  - reflexivity.
  - exists count, notices. split; [exact Hout | exact Hnotices].
Defined.

Lemma C6_broadcast_recipients_witness :
  reachable st_two_members
  ∧ getRoom st_two_members keyA = Some (0, mkRoom [1; 2] [] 1000%Z)
  ∧ copies 1 (message (messageOf envA (JStr "hi") JUndefined))
           (handle_send_message envA 1 (JStr "hi") JUndefined st_two_members).2
    = 1
  ∧ copies 2 (message (messageOf envA (JStr "hi") JUndefined))
           (handle_send_message envA 1 (JStr "hi") JUndefined st_two_members).2
    = 1
  ∧ copies 2 (participant_left 1) (handle_leave_room envA 1 st_two_members).2
    = 1
  ∧ copies 1 (participant_left 1) (handle_leave_room envA 1 st_two_members).2
    = 0.
Proof.
  assert (reachable st_two_members) as Hreach
    by apply (reachable_run trace_two_members init reachable_init).
  split; [exact Hreach|]. split; [reflexivity|].
  destruct (C6_broadcast_recipients
              envA 1 st_two_members keyA 0 (mkRoom [1; 2] [] 1000%Z))
    as (Hchat & _ & _ & Hleft).
  - exact Hreach.
  - reflexivity.
  - destruct (Hleft eq_refl) as [Hothers Hself].
    split; [apply (Hchat eq_refl); [vm_compute; left | reflexivity]|].
    split; [apply (Hchat eq_refl);
            [vm_compute; right; left | reflexivity]|].
    split.
    + apply (Hothers 2); [vm_compute; right; left | lia | reflexivity].
    + apply (Hself 1).
Defined.

Lemma C7_join_unknown_room_changes_nothing_witness :
  rooms st_created !! "NOPE0000" = None
  ∧ handle_join_room envB 1 (JStr "NOPE0000") st_created
    = (st_created, [(1, join_error)]).
Proof.
  split; [reflexivity|].
  apply (C7_join_unknown_room_changes_nothing envB 1 st_created).
  - intros key [= <-]. reflexivity.
  - reflexivity.
Defined.

Lemma C8_send_while_idle_changes_nothing_witness :
  clientRooms st_created !! 2 = None
  ∧ handle_send_message envB 2 (JStr "hi") JUndefined st_created
    = (st_created, [(2, error "Not in a room")]).
Proof.
  split; [reflexivity|].
  apply (C8_send_while_idle_changes_nothing envB 2); reflexivity.
Defined.

Lemma C10_send_with_stale_binding_witness :
  reachable st_rejoined
  ∧ clientRooms st_rejoined !! 1 = Some keyA
  ∧ rooms st_rejoined !! keyA = None
  ∧ handle_send_message envA 1 (JStr "hi") JUndefined st_rejoined
    = (st_rejoined, [(1, error "Room not found")]).
Proof.
  assert (reachable st_rejoined) as Hreach
    by apply (reachable_run trace_rejoined init reachable_init).
  split; [exact Hreach|]. split; [reflexivity|]. split; [reflexivity|].
  apply (C10_send_with_stale_binding envA 1 _ _ st_rejoined keyA);
    [exact Hreach | reflexivity..].
Defined.

(** ** Room keys *)

Lemma hexDigit_code (d : N) :
  (d < 16)%N →
  N_of_ascii (upperAscii (hexDigit d))
  = (if (d <? 10)%N then 48 + d else 55 + d)%N.
Proof.
  intros Hd.
  assert (d ∈ [0; 1; 2; 3; 4; 5; 6; 7; 8; 9; 10; 11; 12; 13; 14; 15]%N) as Hin.
  { rewrite !elem_of_cons. lia. }
  repeat (apply elem_of_cons in Hin as [->|Hin]; [reflexivity|]).
  by inversion Hin.
Qed.

Lemma hexDigit_upper (d : N) :
  (d < 16)%N → isUpperHex (upperAscii (hexDigit d)) = true.
Proof.
  intros Hd. unfold isUpperHex. rewrite hexDigit_code by done.
  destruct (d <? 10)%N eqn:Hlt; cbv zeta.
  - apply N.ltb_lt in Hlt.
    apply orb_true_iff. left. apply andb_true_iff.
    split; apply N.leb_le; lia.
  - apply N.ltb_ge in Hlt.
    apply orb_true_iff. right. apply andb_true_iff.
    split; apply N.leb_le; lia.
Qed.

Lemma hexDigit_inj (d d' : N) :
  (d < 16)%N → (d' < 16)%N →
  upperAscii (hexDigit d) = upperAscii (hexDigit d') → d = d'.
Proof.
  intros Hd Hd' Heq. apply (f_equal N_of_ascii) in Heq.
  rewrite !hexDigit_code in Heq by done.
  destruct (N.ltb_spec d 10), (N.ltb_spec d' 10); lia.
Qed.

Lemma byte_nibbles (b : Byte.byte) :
  (Byte.to_N b / 16 < 16)%N ∧ (Byte.to_N b mod 16 < 16)%N.
Proof.
  pose proof (Byte.to_N_bounded b). split.
  - apply N.Div0.div_lt_upper_bound. lia.
  - apply N.mod_lt. lia.
Qed.

Lemma hexByte_upper (b : Byte.byte) :
  allUpperHex (toUpperCase (hexByte b)) = true.
Proof.
  destruct (byte_nibbles b) as [Hhi Hlo]. unfold hexByte. simpl.
  by rewrite !hexDigit_upper.
Qed.

Lemma hexByte_inj (b b' : Byte.byte) :
  toUpperCase (hexByte b) = toUpperCase (hexByte b') → b = b'.
Proof.
  destruct (byte_nibbles b) as [Hhi Hlo], (byte_nibbles b') as [Hhi' Hlo'].
  unfold hexByte. simpl. intros [= H1 H2].
  apply hexDigit_inj in H1; [|done..]. apply hexDigit_inj in H2; [|done..].
  assert (Byte.to_N b = Byte.to_N b') as Hn.
  { rewrite (N.div_mod (Byte.to_N b) 16), (N.div_mod (Byte.to_N b') 16) by lia.
    congruence. }
  assert (Some b = Some b') as [= ->]; [|done].
  by rewrite <- (Byte.of_to_N b), <- (Byte.of_to_N b'), Hn.
Qed.

Lemma toUpperCase_app (s t : string) :
  toUpperCase (s +:+ t) = toUpperCase s +:+ toUpperCase t.
Proof. induction s as [|c s IH]; [done|]. simpl. by rewrite IH. Qed.

Lemma allUpperHex_app (s t : string) :
  allUpperHex (s +:+ t) = allUpperHex s && allUpperHex t.
Proof.
  induction s as [|c s IH]; [done|]. simpl. rewrite IH. by rewrite andb_assoc.
Qed.

Lemma generateRoomKey_hex env : allUpperHex (generateRoomKey env) = true.
Proof.
  unfold generateRoomKey. destruct (randomBytes env) as [[[b0 b1] b2] b3].
  rewrite !toUpperCase_app, !allUpperHex_app, !hexByte_upper. done.
Qed.

(** X1. A generated room key is eight characters long and every character
    is one of [0-9A-F], whatever bytes the random source gives. *)
Theorem X1_room_key_format env :
  String.length (generateRoomKey env) = 8
  ∧ allUpperHex (generateRoomKey env) = true.
Proof.
  split.
  - apply generateRoomKey_length.
  - apply generateRoomKey_hex.
Qed.

(** X2. Two draws give the same room key only when they are the same four
    bytes: the key loses nothing of the randomness. *)
Theorem X2_room_key_injective env env' :
  generateRoomKey env = generateRoomKey env' →
  randomBytes env = randomBytes env'.
Proof.
  unfold generateRoomKey.
  destruct (randomBytes env) as [[[b0 b1] b2] b3].
  destruct (randomBytes env') as [[[c0 c1] c2] c3].
  rewrite !toUpperCase_app. unfold hexByte. simpl.
  intros [= H0 H0' H1 H1' H2 H2' H3 H3'].
  assert (∀ b c : Byte.byte,
    upperAscii (hexDigit (Byte.to_N b / 16))
    = upperAscii (hexDigit (Byte.to_N c / 16)) →
    upperAscii (hexDigit (Byte.to_N b mod 16))
    = upperAscii (hexDigit (Byte.to_N c mod 16)) → b = c) as Hbyte.
  { intros b c Hhi Hlo. apply hexByte_inj. unfold hexByte. simpl.
    by rewrite Hhi, Hlo. }
  by rewrite (Hbyte b0 c0), (Hbyte b1 c1), (Hbyte b2 c2), (Hbyte b3 c3).
Qed.

Lemma X2_room_key_injective_witness :
  generateRoomKey envA = generateRoomKey envC
  ∧ randomBytes envA = randomBytes envC.
Proof.
  split; [reflexivity|].
  apply (X2_room_key_injective envA envC). reflexivity.
Defined.

(** ** Stored rooms always have a member *)

Lemma setAdd_nonempty ws (cs : list conn) : setAdd ws cs ≠ [].
Proof.
  intros Hnil. assert (ws ∈ setAdd ws cs) as Hin
    by (apply elem_of_setAdd; by right).
  rewrite Hnil in Hin. by inversion Hin.
Qed.

Lemma tidy_init : tidy init.
Proof.
  split.
  - intros key l room Hg. apply getRoom_Some in Hg as [Hl _].
    simpl in Hl. by rewrite lookup_empty in Hl.
  - intros k1 k2 l Hl. simpl in Hl. by rewrite lookup_empty in Hl.
Qed.

Lemma tidy_setRoom st l room :
  tidy st → clients room ≠ [] → tidy (setRoom st l room).
Proof.
  intros [Hm Hd] Hne. split; [|done].
  intros key l' room' Hg. apply getRoom_Some in Hg as [Hl Hroom]. simpl in *.
  apply list_lookup_insert_Some in Hroom.
  destruct Hroom as [(_ & <- & _)|[_ Hroom]]; [done|].
  eapply Hm. apply getRoom_Some. eauto.
Qed.

(** A room object mutated and then removed from [rooms] leaves the stored
    rooms as they were. *)
Lemma tidy_setRoom_delete st cur l room :
  tidy st → rooms st !! cur = Some l →
  tidy (deleteRoom (setRoom st l room) cur).
Proof.
  intros [Hm Hd] Hcur. split.
  - intros key l' room' Hg. apply getRoom_Some in Hg as [Hl Hroom].
    simpl in *. apply lookup_delete_Some in Hl as [Hne Hl].
    apply list_lookup_insert_Some in Hroom.
    destruct Hroom as [(-> & _ & _)|[_ Hroom]].
    + destruct Hne. by eapply Hd.
    + eapply Hm. apply getRoom_Some. eauto.
  - intros k1 k2 l' H1 H2. simpl in *.
    apply lookup_delete_Some in H1 as [_ H1].
    apply lookup_delete_Some in H2 as [_ H2]. by eapply Hd.
Qed.

Lemma tidy_registry st cr :
  tidy st → tidy (mkState (heap st) (rooms st) cr).
Proof. intros [Hm Hd]. split; [exact Hm | exact Hd]. Qed.

Lemma tidy_leaveCurrent ws st : tidy st → tidy (leaveCurrent ws st).
Proof.
  intros Ht.
  destruct (leaveCurrent_cases ws st)
    as [->|(cur & l & room & _ & Hl & _ & Hcases)]; [done|].
  simpl in Hcases. destruct Hcases as [[Hne ->]|[_ ->]].
  - by apply tidy_setRoom.
  - by apply tidy_setRoom_delete.
Qed.

Lemma tidy_departRoom env ws roomId st :
  tidy st → tidy (departRoom env ws roomId st).1.
Proof.
  intros Ht. unfold departRoom.
  destruct (getRoom st roomId) as [[l room]|] eqn:Hg; [|done].
  apply getRoom_Some in Hg as [Hl _]. simpl. case_bool_decide as Hlen.
  - by apply tidy_setRoom_delete.
  - apply tidy_setRoom; [done|]. simpl. intros Hnil. by rewrite Hnil in Hlen.
Qed.

Lemma tidy_create_room env ws st :
  wf st → tidy st → tidy (handle_create_room env ws st).1.
Proof.
  intros Hwf [Hm Hd]. unfold handle_create_room. simpl.
  apply (tidy_registry (mkState _ _ (clientRooms st))). split.
  - intros key l room Hg. apply getRoom_Some in Hg as [Hl Hroom].
    simpl in *. apply lookup_insert_Some in Hl as [[_ <-]|[_ Hl]].
    + rewrite lookup_app_r, Nat.sub_diag in Hroom by done.
      injection Hroom as <-. done.
    + pose proof (wf_alloc st Hwf key l Hl) as Hlt.
      rewrite lookup_app_l in Hroom by done.
      eapply Hm. apply getRoom_Some. eauto.
  - intros k1 k2 l H1 H2. simpl in *.
    apply lookup_insert_Some in H1 as [[<- <-]|[_ H1]];
      apply lookup_insert_Some in H2 as [[<- H2]|[_ H2]]; try done.
    + apply (wf_alloc st Hwf) in H2. lia.
    + subst l. apply (wf_alloc st Hwf) in H1. lia.
    + by eapply Hd.
Qed.

Lemma tidy_join_room env ws roomKey st :
  tidy st → tidy (handle_join_room env ws roomKey st).1.
Proof.
  intros Ht. unfold handle_join_room.
  destruct (getRoomJs st roomKey) as [[[joinKey le] room0]|]; [|done].
  pose proof (tidy_leaveCurrent ws st Ht) as Ht1.
  destruct (heap (leaveCurrent ws st) !! le) as [existingRoom|]; [|done].
  simpl. apply (tidy_registry (setRoom _ _ _)).
  apply tidy_setRoom; [done|]. apply setAdd_nonempty.
Qed.

Lemma tidy_send_message env ws txt sndr st :
  tidy st → tidy (handle_send_message env ws txt sndr st).1.
Proof.
  intros Ht. unfold handle_send_message.
  destruct (boundRoom st ws) as [roomId|]; [|done].
  destruct (getRoom st roomId) as [[l room]|] eqn:Hg; [|done].
  simpl. apply tidy_setRoom; [done|]. simpl. by eapply tidy_members.
Qed.

Lemma tidy_leave_room env ws st :
  tidy st → tidy (handle_leave_room env ws st).1.
Proof.
  intros Ht. unfold handle_leave_room.
  destruct (boundRoom st ws) as [roomId|]; [|done].
  pose proof (tidy_departRoom env ws roomId st Ht) as Hd.
  destruct (departRoom env ws roomId st) as [st1 out]. simpl in *.
  by apply (tidy_registry st1).
Qed.

Lemma tidy_close env ws st : tidy st → tidy (handle_close env ws st).1.
Proof.
  intros Ht. unfold handle_close.
  destruct (boundRoom st ws) as [roomId|]; [|done].
  pose proof (tidy_departRoom env ws roomId st Ht) as Hd.
  destruct (departRoom env ws roomId st) as [st1 out]. simpl in *.
  by apply (tidy_registry st1).
Qed.

Lemma tidy_interval env st : tidy st → tidy (handle_interval env st).
Proof.
  intros [Hm Hd]. split.
  - intros key l room Hg. apply getRoom_Some in Hg as [Hl Hroom].
    simpl in *. apply map_lookup_filter_Some in Hl as [Hl _].
    eapply Hm. apply getRoom_Some. eauto.
  - intros k1 k2 l H1 H2. simpl in *.
    apply map_lookup_filter_Some in H1 as [H1 _].
    apply map_lookup_filter_Some in H2 as [H2 _]. by eapply Hd.
Qed.

Lemma tidy_step env e st : wf st → tidy st → tidy (step env e st).1.
Proof.
  intros Hwf Ht. destruct e as [ws|ws m|ws|]; simpl.
  - done.
  - destruct m; simpl; try done.
    + by apply tidy_create_room.
    + by apply tidy_join_room.
    + by apply tidy_send_message.
    + by apply tidy_leave_room.
  - by apply tidy_close.
  - by apply tidy_interval.
Qed.

Lemma reachable_tidy st : reachable st → tidy st.
Proof.
  induction 1 as [|st env e Hreach IH]; [apply tidy_init|].
  apply tidy_step; [by apply reachable_wf | done].
Qed.

(** X3. In every state the server can reach, each room stored in [rooms]
    has at least one member, and two different keys never hold the same
    room object. *)
Theorem X3_stored_rooms_have_members st :
  reachable st →
  (∀ key l room, getRoom st key = Some (l, room) → clients room ≠ [])
  ∧ (∀ k1 k2 l,
       rooms st !! k1 = Some l → rooms st !! k2 = Some l → k1 = k2).
Proof.
  intros Hreach. destruct (reachable_tidy st Hreach) as [Hm Hd]. done.
Qed.

Lemma X3_stored_rooms_have_members_witness :
  reachable st_two_rooms
  ∧ (∀ key l room,
       getRoom st_two_rooms key = Some (l, room) → clients room ≠ []).
Proof.
  assert (reachable st_two_rooms) as Hreach
    by apply (reachable_run trace_two_rooms init reachable_init).
  split; [exact Hreach|].
  exact (proj1 (X3_stored_rooms_have_members st_two_rooms Hreach)).
Defined.

(** ** The periodic sweep *)

Lemma oldAndEmpty_false_of_member env st l room :
  heap st !! l = Some room → clients room ≠ [] → oldAndEmpty env st l = false.
Proof.
  intros Hroom Hne. unfold oldAndEmpty. rewrite Hroom.
  rewrite bool_decide_eq_false_2; [done|].
  intros Hlen. by apply length_zero_iff_nil in Hlen.
Qed.

(** X4. In every state the server can reach the periodic sweep removes
    nothing: the state after it is the state before it. *)
Theorem X4_sweep_changes_nothing env st :
  reachable st → handle_interval env st = st.
Proof.
  intros Hreach.
  pose proof (reachable_wf st Hreach) as Hwf.
  pose proof (reachable_tidy st Hreach) as Ht.
  unfold handle_interval. destruct st as [h r c]. simpl. f_equal.
  apply map_filter_id. intros key l Hl. simpl.
  pose proof (wf_alloc _ Hwf key l Hl) as Hlt. simpl in Hlt.
  apply lookup_lt_is_Some in Hlt as [room Hroom].
  apply (oldAndEmpty_false_of_member env (mkState h r c) l room); [done|].
  eapply (tidy_members _ Ht key l). apply getRoom_Some. eauto.
Qed.

Lemma X4_sweep_changes_nothing_witness :
  reachable st_two_members ∧ handle_interval envD st_two_members = st_two_members.
Proof.
  assert (reachable st_two_members) as Hreach
    by apply (reachable_run trace_two_members init reachable_init).
  split; [exact Hreach|].
  apply (X4_sweep_changes_nothing envD st_two_members Hreach).
Defined.

(** X5. The sweep, in any state: it leaves the room objects and the
    bindings alone and adds no key; a stored room that has a member, or
    that was created less than an hour before, stays stored; a stored room
    with no member that was created more than an hour before is removed. *)
Theorem X5_sweep_removes_only_old_empty_rooms env st key l room :
  getRoom st key = Some (l, room) →
  heap (handle_interval env st) = heap st
  ∧ clientRooms (handle_interval env st) = clientRooms st
  ∧ (∀ k l', rooms (handle_interval env st) !! k = Some l' →
             rooms st !! k = Some l')
  ∧ (clients room ≠ [] ∨ (now env - 3600000 ≤ createdAt room)%Z →
     getRoom (handle_interval env st) key = Some (l, room))
  ∧ (clients room = [] → (createdAt room < now env - 3600000)%Z →
     getRoom (handle_interval env st) key = None).
Proof.
  intros Hg. apply getRoom_Some in Hg as [Hl Hroom].
  split; [done|]. split; [done|]. split; [|split].
  - intros k l' Hk. simpl in Hk. by apply map_lookup_filter_Some in Hk as [Hk _].
  - intros Hkeep. apply getRoom_Some. simpl. split; [|done].
    apply map_lookup_filter_Some. split; [done|]. simpl.
    unfold oldAndEmpty. rewrite Hroom.
    destruct Hkeep as [Hne|Hyoung].
    + rewrite bool_decide_eq_false_2; [done|].
      intros Hlen. by apply length_zero_iff_nil in Hlen.
    + rewrite (bool_decide_eq_false_2 (_ < _)%Z) by lia.
      apply andb_false_r.
  - intros Hnil Hold. apply getRoom_None. simpl.
    apply map_lookup_filter_None. right. intros l' Hl'. simpl.
    assert (l' = l) as -> by congruence.
    unfold oldAndEmpty. rewrite Hroom, Hnil.
    rewrite (bool_decide_eq_true_2 (_ < _)%Z) by lia. done.
Qed.

Lemma X5_sweep_removes_only_old_empty_rooms_witness :
  getRoom st_created keyA = Some (0, mkRoom [1] [] 1000%Z)
  ∧ getRoom (handle_interval envD st_created) keyA
    = Some (0, mkRoom [1] [] 1000%Z).
Proof.
  split; [reflexivity|].
  destruct (X5_sweep_removes_only_old_empty_rooms
              envD st_created keyA 0 (mkRoom [1] [] 1000%Z))
    as (_ & _ & _ & Hkeep & _).
  - reflexivity.
  - apply Hkeep. left. discriminate.
Defined.

(** ** Closing and leaving *)

(** X6. A socket closing does to the state exactly what its [leave_room]
    would do, and sends the same notices; [leave_room] sends in addition
    its [room_left] reply, when the socket was bound to a room. *)
Theorem X6_close_is_leave_without_reply env ws st :
  (handle_close env ws st).1 = (handle_leave_room env ws st).1
  ∧ (handle_leave_room env ws st).2
    = (handle_close env ws st).2
      ++ (match boundRoom st ws with
          | Some _ => sendToClient env ws room_left
          | None => []
          end).
Proof.
  unfold handle_close, handle_leave_room.
  destruct (boundRoom st ws) as [roomId|]; [|done].
  by destruct (departRoom env ws roomId st) as [st1 out].
Qed.

(** ** Nothing is sent on a transport that is not open *)

Lemma sendToClient_ready env ws m :
  Forall (λ o : Out, ready env o.1 = true) (sendToClient env ws m).
Proof.
  unfold sendToClient. destruct (ready env ws) eqn:Hopen; repeat constructor.
  done.
Qed.

Lemma broadcastToRoom_ready env st roomId m sndr :
  Forall (λ o : Out, ready env o.1 = true)
         (broadcastToRoom env st roomId m sndr).
Proof.
  unfold broadcastToRoom.
  destruct (getRoom st roomId) as [[l room]|]; [|constructor].
  apply Forall_flat_map, Forall_forall. intros c _.
  destruct (bool_decide (c ≠ sndr)); simpl; [|constructor].
  destruct (ready env c) eqn:Hopen; repeat constructor. done.
Qed.

Lemma departRoom_ready env ws roomId st :
  Forall (λ o : Out, ready env o.1 = true) (departRoom env ws roomId st).2.
Proof.
  unfold departRoom.
  destruct (getRoom st roomId) as [[l room]|]; [|constructor].
  apply broadcastToRoom_ready.
Qed.

(** X7. Whatever the event and the state, every send of its handler goes to
    a socket whose [readyState] is [OPEN] while the handler runs. *)
Theorem X7_sends_only_to_open_sockets env e st :
  Forall (λ o : Out, ready env o.1 = true) (step env e st).2.
Proof.
  destruct e as [ws|ws m|ws|]; simpl.
  - apply sendToClient_ready.
  - destruct m; simpl; try apply sendToClient_ready.
    + unfold handle_join_room.
      destruct (getRoomJs st roomKey) as [[[joinKey le] room0]|];
        [|apply sendToClient_ready].
      destruct (heap (leaveCurrent ws st) !! le) as [room1|]; [|constructor].
      simpl. apply Forall_app. split; [apply sendToClient_ready|].
      apply Forall_app. split; [|apply broadcastToRoom_ready].
      apply Forall_flat_map, Forall_forall. intros msg _.
      apply sendToClient_ready.
    + unfold handle_send_message.
      destruct (boundRoom st ws) as [roomId|]; [|apply sendToClient_ready].
      destruct (getRoom st roomId) as [[l room]|]; [|apply sendToClient_ready].
      simpl. apply Forall_app. split.
      * apply Forall_flat_map, Forall_forall. intros c _.
        destruct (ready env c); [apply sendToClient_ready | constructor].
      * destruct (hasSubstring text0); [constructor|apply sendToClient_ready].
    + unfold handle_leave_room.
      destruct (boundRoom st ws) as [roomId|]; [|constructor].
      pose proof (departRoom_ready env ws roomId st) as Hd.
      destruct (departRoom env ws roomId st) as [st1 out]. simpl in *.
      apply Forall_app. split; [done | apply sendToClient_ready].
  - unfold handle_close.
    destruct (boundRoom st ws) as [roomId|]; [|constructor].
    pose proof (departRoom_ready env ws roomId st) as Hd.
    by destruct (departRoom env ws roomId st) as [st1 out].
  - constructor.
Qed.

(** ** What [leave_room] leaves behind *)

(** X8. [leave_room] from a socket bound to a stored room: the socket is
    no longer bound and no longer a member of that room object, whose
    history is kept; the key stays in [rooms] exactly when a member is
    left; every other key and every other room object is as before; the
    last send is the [room_left] reply when the socket is open. *)
Theorem X8_leave_room_effect env ws st roomId l room :
  boundRoom st ws = Some roomId →
  getRoom st roomId = Some (l, room) →
  clientRooms (handle_leave_room env ws st).1 !! ws = None
  ∧ heap (handle_leave_room env ws st).1 !! l
    = Some (withClients room (setDelete ws (clients room)))
  ∧ (ws ∉ setDelete ws (clients room))
  ∧ rooms (handle_leave_room env ws st).1 !! roomId
    = (if bool_decide (setDelete ws (clients room) = []) then None else Some l)
  ∧ (∀ k, k ≠ roomId →
       rooms (handle_leave_room env ws st).1 !! k = rooms st !! k)
  ∧ (∀ l', l' ≠ l →
       heap (handle_leave_room env ws st).1 !! l' = heap st !! l')
  ∧ (∀ c, c ≠ ws →
       clientRooms (handle_leave_room env ws st).1 !! c = clientRooms st !! c)
  ∧ (ready env ws = true →
     ∃ notices, (handle_leave_room env ws st).2 = notices ++ [(ws, room_left)]).
Proof.
  intros Hb Hg. unfold handle_leave_room, departRoom. rewrite Hb, Hg.
  apply getRoom_Some in Hg as [Hl Hroom].
  assert (l < length (heap st)) as Hlt by (by eapply lookup_lt_Some).
  assert (ws ∉ setDelete ws (clients room)) as Hgone
    by (rewrite elem_of_setDelete; tauto).
  assert (bool_decide (length (setDelete ws (clients room)) = 0)
          = bool_decide (setDelete ws (clients room) = [])) as ->.
  { apply bool_decide_ext. apply length_zero_iff_nil. }
  split.
  { destruct (bool_decide _); simpl; apply lookup_delete_eq. }
  split.
  { destruct (bool_decide _); simpl; by apply list_lookup_insert_eq. }
  split; [done|]. split.
  { destruct (bool_decide _); simpl; [apply lookup_delete_eq | done]. }
  split.
  { intros k Hk. destruct (bool_decide _); simpl; [|done].
    by rewrite lookup_delete_ne. }
  split.
  { intros l' Hl'. destruct (bool_decide _); simpl;
      by rewrite list_lookup_insert_ne. }
  split.
  { intros c Hc. destruct (bool_decide _); simpl; by rewrite lookup_delete_ne. }
  intros Hopen. destruct (bool_decide _); simpl;
    rewrite sendToClient_open by done; eauto.
Qed.

Lemma X8_leave_room_effect_witness :
  boundRoom st_two_members 2 = Some keyA
  ∧ getRoom st_two_members keyA = Some (0, mkRoom [1; 2] [] 1000%Z)
  ∧ clientRooms (handle_leave_room envA 2 st_two_members).1 !! 2 = None
  ∧ heap (handle_leave_room envA 2 st_two_members).1 !! 0
    = Some (mkRoom [1] [] 1000%Z)
  ∧ rooms (handle_leave_room envA 2 st_two_members).1 !! keyA = Some 0.
Proof.
  split; [reflexivity|]. split; [reflexivity|].
  destruct (X8_leave_room_effect
              envA 2 st_two_members keyA 0 (mkRoom [1; 2] [] 1000%Z))
    as (Hunbound & Hroom & _ & Hkey & _).
  - reflexivity.
  - reflexivity.
  - split; [exact Hunbound|]. split; [exact Hroom|]. exact Hkey.
Defined.

(** ** What [join_room] leaves behind *)

Lemma leaveCurrent_rooms_sub ws st key l :
  rooms (leaveCurrent ws st) !! key = Some l → rooms st !! key = Some l.
Proof.
  destruct (leaveCurrent_cases ws st)
    as [->|(cur & l' & room' & _ & _ & _ & Hcases)]; [done|].
  simpl in Hcases. destruct Hcases as [[_ ->]|[_ ->]]; simpl; [done|].
  intros Hl. by apply lookup_delete_Some in Hl as [_ Hl].
Qed.

Lemma leaveCurrent_rooms_kept ws st key l room :
  rooms st !! key = Some l → heap st !! l = Some room →
  boundRoom st ws ≠ Some key ∨ setDelete ws (clients room) ≠ [] →
  rooms (leaveCurrent ws st) !! key = Some l.
Proof.
  intros Hl Hroom Hkeep.
  destruct (leaveCurrent_cases ws st)
    as [->|(cur & l' & room' & Hb & Hl' & Hroom' & Hcases)]; [done|].
  simpl in Hcases. destruct Hcases as [[_ ->]|[Hnil ->]]; simpl; [done|].
  destruct (decide (cur = key)) as [->|Hne]; [|by rewrite lookup_delete_ne].
  assert (l' = l) as -> by congruence.
  assert (room' = room) as -> by congruence.
  by destruct Hkeep.
Qed.

Lemma leaveCurrent_bindings ws st :
  clientRooms (leaveCurrent ws st) = clientRooms st.
Proof.
  destruct (leaveCurrent_cases ws st)
    as [->|(cur & l' & room' & _ & _ & _ & Hcases)]; [done|].
  simpl in Hcases. by destruct Hcases as [[_ ->]|[_ ->]].
Qed.

Lemma leaveCurrent_length ws st :
  length (heap (leaveCurrent ws st)) = length (heap st).
Proof.
  destruct (leaveCurrent_cases ws st)
    as [->|(cur & l' & room' & _ & _ & _ & Hcases)]; [done|].
  simpl in Hcases.
  destruct Hcases as [[_ ->]|[_ ->]]; simpl; apply length_insert.
Qed.

(** X9. [join_room] with the key of a stored room, from a socket that is
    not its last member joining it again: afterwards the key still holds
    the same room object, whose members are the former members and the
    requester and whose history is unchanged; the requester is bound to the
    key and no other binding changes; the first send, when the requester is
    open, is [room_joined] with the number of members. *)
Theorem X9_join_room_effect env ws st key l room :
  getRoom st key = Some (l, room) →
  boundRoom st ws ≠ Some key ∨ setDelete ws (clients room) ≠ [] →
  ∃ room1,
    getRoom (handle_join_room env ws (JStr key) st).1 key = Some (l, room1)
    ∧ (∀ c, c ∈ clients room1 ↔ c ∈ clients room ∨ c = ws)
    ∧ messages room1 = messages room
    ∧ clientRooms (handle_join_room env ws (JStr key) st).1 !! ws = Some key
    ∧ (∀ c, c ≠ ws →
         clientRooms (handle_join_room env ws (JStr key) st).1 !! c
         = clientRooms st !! c)
    ∧ (ready env ws = true →
       ∃ rest, (handle_join_room env ws (JStr key) st).2
               = (ws, room_joined key (length (clients room1))) :: rest).
Proof.
  intros Hg Hkeep. unfold handle_join_room, getRoomJs. rewrite Hg.
  apply getRoom_Some in Hg as [Hl Hroom].
  destruct (leaveCurrent_heap ws st l room Hroom)
    as (room0 & Hroom0 & Hmsgs & Hclients).
  rewrite Hroom0.
  exists (withClients room0 (setAdd ws (clients room0))). simpl.
  split; [|split; [|split; [|split; [|split]]]].
  - apply getRoom_Some. simpl. split.
    + by eapply leaveCurrent_rooms_kept.
    + apply list_lookup_insert_eq. by eapply lookup_lt_Some.
  - intros c. rewrite elem_of_setAdd.
    destruct Hclients as [->| ->]; [done|].
    rewrite elem_of_setDelete. destruct (decide (c = ws)); tauto.
  - done.
  - by rewrite lookup_insert_eq.
  - intros c Hc. by rewrite lookup_insert_ne, leaveCurrent_bindings.
  - intros Hopen. rewrite sendToClient_open by done. simpl. eauto.
Qed.

Lemma X9_join_room_effect_witness :
  getRoom st_created keyA = Some (0, mkRoom [1] [] 1000%Z)
  ∧ ∃ room1,
      getRoom (handle_join_room envB 2 (JStr keyA) st_created).1 keyA
      = Some (0, room1)
      ∧ (∀ c, c ∈ clients room1 ↔ c ∈ [1] ∨ c = 2)
      ∧ clientRooms (handle_join_room envB 2 (JStr keyA) st_created).1 !! 2
        = Some keyA.
Proof.
  split; [reflexivity|].
  destruct (X9_join_room_effect
              envB 2 st_created keyA 0 (mkRoom [1] [] 1000%Z))
    as (room1 & Hstored & Hmembers & _ & Hbound & _).
  - reflexivity.
  - left. vm_compute. discriminate.
  - exists room1. split; [exact Hstored|]. split; [exact Hmembers|].
    exact Hbound.
Defined.

(** X10. [join_room] from the only member of a room, with the key of that
    same room: the room is removed from [rooms] when the member is taken
    out, and the member is then added to the removed object and bound to
    its key.  Afterwards the key is not in [rooms] although the requester
    is bound to it; the reply is [room_joined] with a count of 1, followed
    by the replay, and no notice. *)
Theorem X10_sole_member_rejoins_own_room env ws st key l room :
  boundRoom st ws = Some key →
  getRoom st key = Some (l, room) →
  setDelete ws (clients room) = [] →
  rooms (handle_join_room env ws (JStr key) st).1 !! key = None
  ∧ clientRooms (handle_join_room env ws (JStr key) st).1 !! ws = Some key
  ∧ heap (handle_join_room env ws (JStr key) st).1 !! l
    = Some (withClients room [ws])
  ∧ (handle_join_room env ws (JStr key) st).2
    = sendToClient env ws (room_joined key 1)
      ++ flat_map (λ msg, sendToClient env ws (message msg))
                  (sliceLast 10 (messages room)).
Proof.
  intros Hb Hg Hnil. unfold handle_join_room, getRoomJs, leaveCurrent.
  rewrite Hg, Hb, Hg, Hnil. simpl.
  apply getRoom_Some in Hg as [Hl Hroom].
  assert (l < length (heap st)) as Hlt by (by eapply lookup_lt_Some).
  rewrite list_lookup_insert_eq by done. simpl.
  rewrite lookup_delete_eq, lookup_insert_eq.
  rewrite list_lookup_insert_eq by (by rewrite length_insert).
  split; [done|]. split; [done|]. split; [done|].
  unfold broadcastToRoom, getRoom. simpl. rewrite lookup_delete_eq.
  by rewrite app_nil_r.
Qed.

Lemma X10_sole_member_rejoins_own_room_witness :
  boundRoom st_created 1 = Some keyA
  ∧ getRoom st_created keyA = Some (0, mkRoom [1] [] 1000%Z)
  ∧ rooms (handle_join_room envB 1 (JStr keyA) st_created).1 !! keyA = None
  ∧ clientRooms (handle_join_room envB 1 (JStr keyA) st_created).1 !! 1
    = Some keyA.
Proof.
  split; [reflexivity|]. split; [reflexivity|].
  destruct (X10_sole_member_rejoins_own_room
              envB 1 st_created keyA 0 (mkRoom [1] [] 1000%Z))
    as (Hgone & Hbound & _).
  - reflexivity.
  - reflexivity.
  - reflexivity.
  - split; [exact Hgone | exact Hbound].
Defined.

(** ** Who hears about a join *)

Lemma join_room_no_left env ws st roomKey c n :
  copies c (participant_left n) (handle_join_room env ws roomKey st).2 = 0.
Proof.
  apply copies_none. unfold handle_join_room.
  destruct (getRoomJs st roomKey) as [[[joinKey le] room0]|]; cbn [snd].
  - destruct (heap (leaveCurrent ws st) !! le) as [room1|];
      cbn [snd]; [|constructor].
    apply Forall_app. split.
    { unfold sendToClient. destruct (ready env ws); repeat constructor. done. }
    apply Forall_app. split.
    { apply Forall_flat_map, Forall_forall. intros msg _.
      unfold sendToClient. destruct (ready env ws); repeat constructor. done. }
    eapply Forall_impl; [apply broadcastToRoom_others|].
    intros [c' m] [_ Hm] [= _ ->]. done.
  - unfold sendToClient. destruct (ready env ws); repeat constructor. done.
Qed.

Lemma sendToClient_Forall env ws m (P : Out → Prop) :
  P (ws, m) → Forall P (sendToClient env ws m).
Proof.
  intros HP. unfold sendToClient.
  destruct (ready env ws); [by constructor | constructor].
Qed.

Lemma join_room_sends env ws st roomKey :
  Forall (λ o : Out,
            o.1 = ws
            ∨ ∃ key l room n,
                getRoomJs st roomKey = Some (key, l, room)
                ∧ o.1 ∈ clients room
                ∧ o.2 = participant_joined n)
         (handle_join_room env ws roomKey st).2.
Proof.
  unfold handle_join_room.
  destruct (getRoomJs st roomKey) as [[[joinKey le] room0]|] eqn:Hjs; cbn [snd].
  2:{ apply sendToClient_Forall. by left. }
  assert (getRoom st joinKey = Some (le, room0)) as Hg.
  { unfold getRoomJs in Hjs. destruct roomKey as [| | | |k|]; try done.
    destruct (getRoom st k) as [[l r]|] eqn:Hk; [|done].
    by injection Hjs as <- <- <-. }
  apply getRoom_Some in Hg as [Hl Hroom].
  destruct (leaveCurrent_heap ws st le room0 Hroom)
    as (room1 & -> & _ & Hclients).
  cbn [snd]. apply Forall_app. split.
  { apply sendToClient_Forall. by left. }
  apply Forall_app. split.
  { apply Forall_flat_map, Forall_forall. intros msg _.
    apply sendToClient_Forall. by left. }
  unfold broadcastToRoom.
  destruct (getRoom _ joinKey) as [[l2 room2]|] eqn:Hg2; [|constructor].
  apply getRoom_Some in Hg2 as [Hl2 Hroom2]. simpl in Hl2, Hroom2.
  apply leaveCurrent_rooms_sub in Hl2.
  assert (l2 = le) as -> by congruence.
  rewrite list_lookup_insert_eq in Hroom2
    by (rewrite leaveCurrent_length; by eapply lookup_lt_Some).
  injection Hroom2 as <-. simpl.
  apply Forall_flat_map, Forall_forall. intros c Hc.
  case_bool_decide as Hne; simpl; [|constructor].
  destruct (ready env c); constructor; [|constructor].
  right. exists joinKey, le, room0, (length (setAdd ws (clients room1))).
  split; [done|]. split; [|done]. simpl.
  apply elem_of_setAdd in Hc as [Hc|Hc]; [|done].
  destruct Hclients as [Heq|Heq]; rewrite Heq in Hc; [done|].
  by apply elem_of_setDelete in Hc as [Hc _].
Qed.

(** X11. Every send of [join_room] goes either to the requester or, as a
    [participant_joined] notice, to a socket that was already a member of
    the room being joined.  Any other socket is sent nothing; this includes
    a member of the room the requester leaves on the way, unless it is also
    a member of the room being joined. *)
Theorem X11_join_room_recipients env ws st roomKey :
  Forall (λ o : Out,
            o.1 = ws
            ∨ ∃ key l room n,
                getRoomJs st roomKey = Some (key, l, room)
                ∧ o.1 ∈ clients room
                ∧ o.2 = participant_joined n)
         (handle_join_room env ws roomKey st).2
  ∧ (∀ c m,
       c ≠ ws →
       (∀ key l room,
          getRoomJs st roomKey = Some (key, l, room) → c ∉ clients room) →
       copies c m (handle_join_room env ws roomKey st).2 = 0).
Proof.
  pose proof (join_room_sends env ws st roomKey) as Hsends.
  split; [exact Hsends|].
  intros c m Hne Hstranger. apply copies_none.
  eapply Forall_impl; [exact Hsends|].
  intros [c' m'] Ho [= -> ->]. simpl in Ho.
  destruct Ho as [Hws|(key & l & room & n & Hjs & Hin & _)]; [done|].
  by eapply Hstranger.
Qed.

Lemma X11_join_room_recipients_witness :
  getRoom st_three_sockets keyB = Some (1, mkRoom [2; 3] [] 2000%Z)
  ∧ boundRoom st_three_sockets 2 = Some keyB
  ∧ (handle_join_room envA 2 (JStr keyA) st_three_sockets).2
    = [(2, room_joined keyA 2); (1, participant_joined 2)]
  ∧ ∀ m, copies 3 m (handle_join_room envA 2 (JStr keyA) st_three_sockets).2
         = 0.
Proof.
  split; [reflexivity|]. split; [reflexivity|]. split; [reflexivity|].
  intros m.
  apply (proj2 (X11_join_room_recipients envA 2 st_three_sockets (JStr keyA))).
  - lia.
  - intros key l room Hjs. vm_compute in Hjs. injection Hjs as _ _ <-.
    intros Hin. apply list_elem_of_singleton in Hin. discriminate.
Defined.

(** X12. [join_room] that moves a socket from the room it is bound to into
    another stored room, in a state the server can reach: the socket is
    taken out of the old room object, the old key stays in [rooms] exactly
    when a member is left there, and nobody is sent [participant_left]. *)
Theorem X12_join_room_leaves_old_room_silently
    env ws st oldKey lo oldRoom key l room :
  reachable st →
  boundRoom st ws = Some oldKey →
  getRoom st oldKey = Some (lo, oldRoom) →
  getRoom st key = Some (l, room) →
  oldKey ≠ key →
  heap (handle_join_room env ws (JStr key) st).1 !! lo
  = Some (withClients oldRoom (setDelete ws (clients oldRoom)))
  ∧ rooms (handle_join_room env ws (JStr key) st).1 !! oldKey
    = (if bool_decide (setDelete ws (clients oldRoom) = [])
       then None else Some lo)
  ∧ ∀ c n, copies c (participant_left n)
                  (handle_join_room env ws (JStr key) st).2 = 0.
Proof.
  intros Hreach Hb Hold Hg Hne.
  split; [|split; [|intros c n; apply join_room_no_left]].
  - unfold handle_join_room, getRoomJs, leaveCurrent. rewrite Hg, Hb, Hold.
    apply getRoom_Some in Hold as [Hlo Hro].
    apply getRoom_Some in Hg as [Hl Hroom].
    assert (lo ≠ l) as Hlne.
    { intros ->. apply Hne.
      by eapply (tidy_distinct st (reachable_tidy st Hreach)). }
    assert (lo < length (heap st)) as Hlt by (by eapply lookup_lt_Some).
    assert (heap (if bool_decide
                       (length (setDelete ws (clients oldRoom)) = 0)
                  then deleteRoom
                         (setRoom st lo
                            (withClients oldRoom
                               (setDelete ws (clients oldRoom)))) oldKey
                  else setRoom st lo
                         (withClients oldRoom
                            (setDelete ws (clients oldRoom))))
            = <[lo := withClients oldRoom (setDelete ws (clients oldRoom))]>
                (heap st)) as Hheap by (by destruct (bool_decide _)).
    rewrite Hheap. rewrite list_lookup_insert_ne, Hroom by done. simpl.
    rewrite list_lookup_insert_ne by done. rewrite Hheap.
    by apply list_lookup_insert_eq.
  - unfold handle_join_room, getRoomJs, leaveCurrent. rewrite Hg, Hb, Hold.
    apply getRoom_Some in Hold as [Hlo Hro].
    apply getRoom_Some in Hg as [Hl Hroom].
    assert (lo ≠ l) as Hlne.
    { intros ->. apply Hne.
      by eapply (tidy_distinct st (reachable_tidy st Hreach)). }
    assert (bool_decide (length (setDelete ws (clients oldRoom)) = 0)
            = bool_decide (setDelete ws (clients oldRoom) = [])) as ->.
    { apply bool_decide_ext. apply length_zero_iff_nil. }
    destruct (bool_decide (setDelete ws (clients oldRoom) = [])); simpl.
    + rewrite list_lookup_insert_ne, Hroom by done. simpl.
      apply lookup_delete_eq.
    + rewrite list_lookup_insert_ne, Hroom by done. by simpl.
Qed.

Lemma X12_join_room_leaves_old_room_silently_witness :
  reachable st_two_rooms
  ∧ boundRoom st_two_rooms 2 = Some keyB
  ∧ heap (handle_join_room envA 2 (JStr keyA) st_two_rooms).1 !! 1
    = Some (mkRoom [] [] 2000%Z)
  ∧ rooms (handle_join_room envA 2 (JStr keyA) st_two_rooms).1 !! keyB = None.
Proof.
  assert (reachable st_two_rooms) as Hreach
    by apply (reachable_run trace_two_rooms init reachable_init).
  split; [exact Hreach|]. split; [reflexivity|].
  destruct (X12_join_room_leaves_old_room_silently
              envA 2 st_two_rooms keyB 1 (mkRoom [2] [] 2000%Z)
              keyA 0 (mkRoom [1] [] 1000%Z))
    as (Hobject & Hkey & _).
  - exact Hreach.
  - reflexivity.
  - reflexivity.
  - reflexivity.
  - vm_compute. discriminate.
  - split; [exact Hobject | exact Hkey].
Defined.

(** ** What [send_message] touches *)

(** X13. [send_message] never changes [rooms], the bindings, or the
    members and creation time of any room object.  The history of the room
    object stored under the key the sender is bound to becomes the old one
    with the new message recorded; the history of every other room object
    stays as it was. *)
Theorem X13_send_message_touches_one_history env ws txt sndr st l room :
  heap st !! l = Some room →
  rooms (handle_send_message env ws txt sndr st).1 = rooms st
  ∧ clientRooms (handle_send_message env ws txt sndr st).1 = clientRooms st
  ∧ ∃ room1,
      heap (handle_send_message env ws txt sndr st).1 !! l = Some room1
      ∧ clients room1 = clients room
      ∧ createdAt room1 = createdAt room
      ∧ (∀ roomId,
           boundRoom st ws = Some roomId → rooms st !! roomId = Some l →
           messages room1 = record (messages room) (messageOf env txt sndr))
      ∧ ((∀ roomId,
            boundRoom st ws = Some roomId → rooms st !! roomId ≠ Some l) →
         messages room1 = messages room).
Proof.
  intros Hroom. unfold handle_send_message.
  destruct (boundRoom st ws) as [roomId|] eqn:Hb.
  2:{ split; [done|]. split; [done|]. exists room.
      do 3 (split; [done|]). split; [|done]. intros roomId [=]. }
  destruct (getRoom st roomId) as [[l0 room0]|] eqn:Hg.
  2:{ split; [done|]. split; [done|]. exists room.
      do 3 (split; [done|]). split; [|done].
      intros roomId' [= <-] Hl.
      assert (getRoom st roomId = Some (l, room)) as Hg'
        by (by apply getRoom_Some).
      congruence. }
  apply getRoom_Some in Hg as [Hl0 Hroom0]. simpl.
  split; [done|]. split; [done|].
  destruct (decide (l0 = l)) as [->|Hne].
  - assert (room0 = room) as -> by congruence.
    rewrite list_lookup_insert_eq by (by eapply lookup_lt_Some).
    eexists. split; [done|]. simpl. do 2 (split; [done|]). split; [done|].
    intros Hother. by destruct (Hother roomId).
  - rewrite list_lookup_insert_ne by done. exists room.
    do 3 (split; [done|]). split; [|done].
    intros roomId' [= <-] Hl. congruence.
Qed.

Lemma X13_send_message_touches_one_history_witness :
  boundRoom st_two_rooms 1 = Some keyA
  ∧ rooms st_two_rooms !! keyA = Some 0
  ∧ heap st_two_rooms !! 0 = Some (mkRoom [1] [] 1000%Z)
  ∧ heap st_two_rooms !! 1 = Some (mkRoom [2] [] 2000%Z)
  ∧ heap (handle_send_message envA 1 (JStr "hi") JNull st_two_rooms).1 !! 0
    = Some (mkRoom [1] [hello] 1000%Z)
  ∧ heap (handle_send_message envA 1 (JStr "hi") JNull st_two_rooms).1 !! 1
    = Some (mkRoom [2] [] 2000%Z).
Proof.
  do 4 (split; [reflexivity|]).
  destruct (X13_send_message_touches_one_history
              envA 1 (JStr "hi") JNull st_two_rooms 0 (mkRoom [1] [] 1000%Z))
    as (_ & _ & roomA & HroomA & HclientsA & HcreatedA & HsentA & _);
    [reflexivity|].
  destruct (X13_send_message_touches_one_history
              envA 1 (JStr "hi") JNull st_two_rooms 1 (mkRoom [2] [] 2000%Z))
    as (_ & _ & roomB & HroomB & HclientsB & HcreatedB & _ & HotherB);
    [reflexivity|].
  specialize (HsentA keyA eq_refl eq_refl).
  assert (messages roomB = []) as HkeptB.
  { apply HotherB. intros roomId Hb. vm_compute in Hb. injection Hb as <-.
    vm_compute. discriminate. }
  split.
  - rewrite HroomA. destruct roomA as [cs ms t]. simpl in *.
    by rewrite HclientsA, HcreatedA, HsentA.
  - rewrite HroomB. destruct roomB as [cs ms t]. simpl in *.
    by rewrite HclientsB, HcreatedB, HkeptB.
Defined.

Lemma record_last history m : last (record history m) = Some m.
Proof.
  rewrite record_sliceLast. unfold sliceLast.
  rewrite length_app. simpl.
  rewrite drop_app_le by lia. apply last_snoc.
Qed.

Lemma chat_no_error env m err c (cs : list conn) :
  copies c (error err)
         (flat_map (λ client,
                      if ready env client
                      then sendToClient env client (message m) else []) cs)
  = 0.
Proof.
  apply copies_none, Forall_flat_map, Forall_forall. intros c' _.
  destruct (ready env c'); [|constructor].
  by apply sendToClient_Forall.
Qed.

(** X14. [send_message] whose [text] is not a string, from an open socket
    bound to a stored room of a state the server can reach: the message is
    recorded as the newest entry of the history and delivered once to every
    open member all the same, and the sender is then sent one 'Invalid
    message format' error. *)
Theorem X14_send_message_with_bad_text env ws txt sndr st roomId l room :
  reachable st →
  boundRoom st ws = Some roomId →
  getRoom st roomId = Some (l, room) →
  hasSubstring txt = false →
  ready env ws = true →
  (∃ room1,
     heap (handle_send_message env ws txt sndr st).1 !! l = Some room1
     ∧ last (messages room1) = Some (messageOf env txt sndr))
  ∧ (∀ c, c ∈ clients room → ready env c = true →
       copies c (message (messageOf env txt sndr))
              (handle_send_message env ws txt sndr st).2 = 1)
  ∧ copies ws (error "Invalid message format")
           (handle_send_message env ws txt sndr st).2 = 1
  ∧ last (handle_send_message env ws txt sndr st).2
    = Some (ws, error "Invalid message format").
Proof.
  intros Hreach Hb Hg Htxt Hopen.
  pose proof (reachable_wf st Hreach) as Hwf.
  split; [|split; [|split]].
  - rewrite (send_message_records env ws txt sndr st roomId l room) by done.
    eexists. split; [done|]. simpl. apply record_last.
  - intros c Hc Hc'. by eapply chat_reaches_members.
  - unfold handle_send_message. rewrite Hb, Hg. cbn [snd].
    rewrite Htxt, copies_app, chat_no_error, sendToClient_open by done.
    unfold copies. by rewrite filter_cons_True.
  - unfold handle_send_message. rewrite Hb, Hg. cbn [snd].
    rewrite Htxt, sendToClient_open by done. apply last_snoc.
Qed.

Lemma X14_send_message_with_bad_text_witness :
  reachable st_two_members
  ∧ boundRoom st_two_members 1 = Some keyA
  ∧ copies 2 (message (messageOf envA (JNum 7) JNull))
           (handle_send_message envA 1 (JNum 7) JNull st_two_members).2 = 1
  ∧ copies 1 (error "Invalid message format")
           (handle_send_message envA 1 (JNum 7) JNull st_two_members).2 = 1.
Proof.
  assert (reachable st_two_members) as Hreach
    by apply (reachable_run trace_two_members init reachable_init).
  split; [exact Hreach|]. split; [reflexivity|].
  destruct (X14_send_message_with_bad_text
              envA 1 (JNum 7) JNull st_two_members keyA 0
              (mkRoom [1; 2] [] 1000%Z))
    as (_ & Hchat & Herror & _).
  - exact Hreach.
  - reflexivity.
  - reflexivity.
  - reflexivity.
  - reflexivity.
  - split; [|exact Herror].
    apply Hchat; [vm_compute; right; left | reflexivity].
Defined.

(** ** Room objects keep their history and creation time *)

Lemma setRoom_withClients_lookup st l0 room0 cs l room :
  heap st !! l0 = Some room0 →
  heap st !! l = Some room →
  ∃ room1,
    heap (setRoom st l0 (withClients room0 cs)) !! l = Some room1
    ∧ createdAt room1 = createdAt room
    ∧ messages room1 = messages room.
Proof.
  intros Hroom0 Hroom. simpl. destruct (decide (l0 = l)) as [->|Hne].
  - assert (room0 = room) as -> by congruence.
    rewrite list_lookup_insert_eq by (by eapply lookup_lt_Some). eauto.
  - rewrite list_lookup_insert_ne by done. eauto.
Qed.

Lemma leaveCurrent_keeps_record ws st l room :
  heap st !! l = Some room →
  ∃ room1,
    heap (leaveCurrent ws st) !! l = Some room1
    ∧ createdAt room1 = createdAt room
    ∧ messages room1 = messages room.
Proof.
  intros Hroom.
  destruct (leaveCurrent_cases ws st)
    as [->|(cur & l0 & room0 & _ & _ & Hroom0 & Hcases)]; [by eauto|].
  simpl in Hcases.
  pose proof (setRoom_withClients_lookup
                st l0 room0 (setDelete ws (clients room0)) l room Hroom0 Hroom)
    as Hgoal.
  by destruct Hcases as [[_ ->]|[_ ->]].
Qed.

Lemma departRoom_keeps_record env ws roomId st l room :
  heap st !! l = Some room →
  ∃ room1,
    heap (departRoom env ws roomId st).1 !! l = Some room1
    ∧ createdAt room1 = createdAt room
    ∧ messages room1 = messages room.
Proof.
  intros Hroom. unfold departRoom.
  destruct (getRoom st roomId) as [[l0 room0]|] eqn:Hg; [|by eauto].
  apply getRoom_Some in Hg as [_ Hroom0]. cbn [fst].
  pose proof (setRoom_withClients_lookup
                st l0 room0 (setDelete ws (clients room0)) l room Hroom0 Hroom)
    as Hgoal.
  by destruct (bool_decide _).
Qed.

Lemma send_message_keeps_created env ws txt sndr st l room :
  heap st !! l = Some room →
  ∃ room1,
    heap (handle_send_message env ws txt sndr st).1 !! l = Some room1
    ∧ createdAt room1 = createdAt room.
Proof.
  intros Hroom. unfold handle_send_message.
  destruct (boundRoom st ws) as [roomId|]; [|by eauto].
  destruct (getRoom st roomId) as [[l0 room0]|] eqn:Hg; [|by eauto].
  apply getRoom_Some in Hg as [_ Hroom0]. simpl.
  destruct (decide (l0 = l)) as [->|Hne].
  - assert (room0 = room) as -> by congruence.
    rewrite list_lookup_insert_eq by (by eapply lookup_lt_Some). eauto.
  - rewrite list_lookup_insert_ne by done. eauto.
Qed.

(** X15. Whatever the event, a room object that exists before it exists
    after it with the same creation time; and unless the event is a
    [send_message] frame, with the same history. *)
Theorem X15_history_changes_only_by_send_message env e st l room :
  heap st !! l = Some room →
  ∃ room1,
    heap (step env e st).1 !! l = Some room1
    ∧ createdAt room1 = createdAt room
    ∧ (isSendMessage e = false → messages room1 = messages room).
Proof.
  intros Hroom.
  assert (∀ st1 : State,
    (∃ room1, heap st1 !! l = Some room1
              ∧ createdAt room1 = createdAt room
              ∧ messages room1 = messages room) →
    ∃ room1, heap st1 !! l = Some room1
             ∧ createdAt room1 = createdAt room
             ∧ (isSendMessage e = false → messages room1 = messages room))
    as Hweaken by (intros st1 (room1 & ? & ? & ?); eauto).
  destruct e as [ws|ws m|ws|]; cbn [step].
  - apply Hweaken. cbn [fst]. eauto.
  - destruct m; cbn [handle_message];
      try (apply Hweaken; cbn [fst]; by eauto).
    + apply Hweaken. exists room. split; [|done]. simpl.
      by apply lookup_app_l_Some.
    + apply Hweaken. unfold handle_join_room.
      destruct (getRoomJs st roomKey) as [[[joinKey le] room0]|]; [|by eauto].
      destruct (leaveCurrent_keeps_record ws st l room Hroom)
        as (room1 & Hroom1 & Hc1 & Hm1).
      destruct (heap (leaveCurrent ws st) !! le) as [existingRoom|] eqn:He;
        [|by eauto].
      cbn [fst].
      destruct (setRoom_withClients_lookup
                  (leaveCurrent ws st) le existingRoom
                  (setAdd ws (clients existingRoom)) l room1 He Hroom1)
        as (room2 & Hroom2 & Hc2 & Hm2).
      exists room2. simpl in *. split; [done|]. split; congruence.
    + destruct (send_message_keeps_created env ws text0 sender0 st l room Hroom)
        as (room1 & Hroom1 & Hc1).
      exists room1. split; [done|]. split; [done|]. discriminate.
    + apply Hweaken. unfold handle_leave_room.
      destruct (boundRoom st ws) as [roomId|]; [|by eauto].
      pose proof (departRoom_keeps_record env ws roomId st l room Hroom) as Hd.
      by destruct (departRoom env ws roomId st) as [st1 out].
  - apply Hweaken. unfold handle_close.
    destruct (boundRoom st ws) as [roomId|]; [|by eauto].
    pose proof (departRoom_keeps_record env ws roomId st l room Hroom) as Hd.
    by destruct (departRoom env ws roomId st) as [st1 out].
  - apply Hweaken. cbn [fst]. simpl. eauto.
Qed.

Lemma X15_history_changes_only_by_send_message_witness :
  heap st_spoken !! 0 = Some (mkRoom [1] [hello] 1000%Z)
  ∧ ∃ room1,
      heap (step envB (on_message 1 leave_room) st_spoken).1 !! 0 = Some room1
      ∧ createdAt room1 = 1000%Z
      ∧ messages room1 = [hello].
Proof.
  split; [reflexivity|].
  destruct (X15_history_changes_only_by_send_message
              envB (on_message 1 leave_room) st_spoken 0
              (mkRoom [1] [hello] 1000%Z))
    as (room1 & Hroom1 & Hcreated & Hhistory).
  - reflexivity.
  - exists room1. split; [exact Hroom1|]. split; [exact Hcreated|].
    apply Hhistory. reflexivity.
Defined.

(** ** Recording into a full history *)

(** X16. Recording a message into a history of at most 50 entries puts it
    last; a history of fewer than 50 entries keeps all its entries before
    it, and a history of exactly 50 loses its oldest entry and keeps the
    other 49 in order. *)
Theorem X16_record_evicts_oldest history m :
  length history ≤ 50 →
  record history m
  = (if bool_decide (length history = 50) then drop 1 history else history)
    ++ [m].
Proof.
  intros Hlen. rewrite record_sliceLast. unfold sliceLast.
  rewrite length_app. simpl. case_bool_decide as Hfull.
  - rewrite Hfull. simpl. rewrite drop_app_le by lia. done.
  - replace (length history + 1 - 50) with 0 by lia. done.
Qed.

Lemma X16_record_evicts_oldest_witness :
  length (replicate 50 hello) ≤ 50
  ∧ record (replicate 50 hello) hello = replicate 49 hello ++ [hello].
Proof.
  split; [vm_compute; lia|].
  rewrite (X16_record_evicts_oldest (replicate 50 hello) hello)
    by (vm_compute; lia).
  reflexivity.
Defined.

(** ** What a closing socket triggers *)

(** X17. When a socket closes, every send is a [participant_left] notice
    to another socket; the closing socket is sent nothing, and it is not
    bound afterwards. *)
Theorem X17_close_notifies_only_others env ws st :
  Forall (λ o : Out, o.1 ≠ ws ∧ ∃ n, o.2 = participant_left n)
         (handle_close env ws st).2
  ∧ boundRoom (handle_close env ws st).1 ws = None.
Proof.
  unfold handle_close.
  destruct (boundRoom st ws) as [roomId|] eqn:Hb; [|by split].
  unfold departRoom.
  destruct (getRoom st roomId) as [[l room]|]; simpl.
  - split.
    + eapply Forall_impl; [apply broadcastToRoom_others|].
      intros o [Hne Hm]. eauto.
    + unfold boundRoom. simpl. by rewrite lookup_delete_eq.
  - split; [constructor|].
    unfold boundRoom. simpl. by rewrite lookup_delete_eq.
Qed.

(** ** Keys in use are generated keys *)

Lemma keyed_init : keyed init.
Proof. split; simpl; intros *; by rewrite lookup_empty. Qed.

(** A state whose keys and bindings all come from a keyed state is
    keyed. *)
Lemma keyed_sub st st1 :
  keyed st →
  (∀ k l, rooms st1 !! k = Some l → rooms st !! k = Some l) →
  (∀ ws k, clientRooms st1 !! ws = Some k → clientRooms st !! ws = Some k) →
  keyed st1.
Proof. intros [Hr Hb] Hrooms Hbound. split; eauto. Qed.

Lemma departRoom_rooms_sub env ws roomId st k l :
  rooms (departRoom env ws roomId st).1 !! k = Some l → rooms st !! k = Some l.
Proof.
  unfold departRoom. destruct (getRoom st roomId) as [[l0 room0]|]; [|done].
  cbn [fst]. destruct (bool_decide _); simpl; [|done].
  intros Hl. by apply lookup_delete_Some in Hl as [_ Hl].
Qed.

Lemma departRoom_bindings env ws roomId st :
  clientRooms (departRoom env ws roomId st).1 = clientRooms st.
Proof.
  unfold departRoom. destruct (getRoom st roomId) as [[l0 room0]|]; [|done].
  cbn [fst]. by destruct (bool_decide _).
Qed.

Lemma keyed_step env e st : keyed st → keyed (step env e st).1.
Proof.
  intros Hk. destruct e as [ws|ws m|ws|]; cbn [step]; [done| | |].
  - destruct m; cbn [handle_message]; try done.
    + destruct Hk as [Hr Hb]. split; simpl.
      * intros k l Hl. apply lookup_insert_Some in Hl as [[<- _]|[_ Hl]];
          [apply generateRoomKey_hex | eauto].
      * intros c k Hc. apply lookup_insert_Some in Hc as [[_ <-]|[_ Hc]];
          [apply generateRoomKey_hex | eauto].
    + unfold handle_join_room.
      destruct (getRoomJs st roomKey) as [[[joinKey le] room0]|] eqn:Hjs;
        [|done].
      assert (rooms st !! joinKey = Some le) as Hle.
      { unfold getRoomJs in Hjs. destruct roomKey as [| | | |key|]; try done.
        destruct (getRoom st key) as [[l r]|] eqn:Hg; [|done].
        injection Hjs as <- <- <-. by apply getRoom_Some in Hg as [Hg _]. }
      destruct (heap (leaveCurrent ws st) !! le) as [existingRoom|]; cbn [fst].
      * destruct Hk as [Hr Hb]. split; simpl.
        -- intros k l Hl. apply leaveCurrent_rooms_sub in Hl. eauto.
        -- intros c k Hc. apply lookup_insert_Some in Hc as [[_ <-]|[_ Hc]];
             [eauto|]. rewrite leaveCurrent_bindings in Hc. eauto.
      * apply (keyed_sub st); [done| |].
        -- intros k l. apply leaveCurrent_rooms_sub.
        -- intros c k. by rewrite leaveCurrent_bindings.
    + unfold handle_send_message.
      destruct (boundRoom st ws) as [roomId|]; [|done].
      destruct (getRoom st roomId) as [[l room]|]; [|done].
      by apply (keyed_sub st).
    + unfold handle_leave_room.
      destruct (boundRoom st ws) as [roomId|]; [|done].
      pose proof (departRoom_rooms_sub env ws roomId st) as Hsub.
      pose proof (departRoom_bindings env ws roomId st) as Hbind.
      destruct (departRoom env ws roomId st) as [st1 out]. simpl in *.
      apply (keyed_sub st); [done|done|]. simpl.
      intros c k Hc. apply lookup_delete_Some in Hc as [_ Hc]. congruence.
  - unfold handle_close.
    destruct (boundRoom st ws) as [roomId|]; [|done].
    pose proof (departRoom_rooms_sub env ws roomId st) as Hsub.
    pose proof (departRoom_bindings env ws roomId st) as Hbind.
    destruct (departRoom env ws roomId st) as [st1 out]. simpl in *.
    apply (keyed_sub st); [done|done|]. simpl.
    intros c k Hc. apply lookup_delete_Some in Hc as [_ Hc]. congruence.
  - apply (keyed_sub st); [done| |done]. simpl.
    intros k l Hl. by apply map_lookup_filter_Some in Hl as [Hl _].
Qed.

Lemma reachable_keyed st : reachable st → keyed st.
Proof.
  induction 1 as [|st env e _ IH]; [apply keyed_init | by apply keyed_step].
Qed.

(** X18. In a state the server can reach, every key stored in [rooms] and
    every key a socket is bound to is eight characters of [0-9A-F]; so
    [join_room] with anything else (a value that is not a string, a string
    of another length, a key typed in lower case) is answered with
    [join_error] and changes nothing. *)
Theorem X18_join_room_needs_generated_key env ws st roomKey :
  reachable st →
  ready env ws = true →
  (∀ key, roomKey = JStr key →
          String.length key ≠ 8 ∨ allUpperHex key = false) →
  (∀ k l, rooms st !! k = Some l →
          String.length k = 8 ∧ allUpperHex k = true)
  ∧ (∀ c k, clientRooms st !! c = Some k →
            String.length k = 8 ∧ allUpperHex k = true)
  ∧ handle_join_room env ws roomKey st = (st, [(ws, join_error)]).
Proof.
  intros Hreach Hopen Hbad.
  pose proof (reachable_wf st Hreach) as Hwf.
  pose proof (reachable_keyed st Hreach) as Hk.
  split; [|split].
  - intros k l Hl. split; [by eapply wf_keys | by eapply keyed_rooms].
  - intros c k Hc. split; [by eapply wf_bound | by eapply keyed_bound].
  - unfold handle_join_room.
    assert (getRoomJs st roomKey = None) as ->.
    { destruct roomKey as [| | | |key|]; try done. simpl.
      destruct (rooms st !! key) as [l|] eqn:Hl; [|by rewrite getRoom_None].
      destruct (Hbad key eq_refl) as [Hlen|Hhex].
      - destruct Hlen. by eapply wf_keys.
      - rewrite (keyed_rooms st Hk key l Hl) in Hhex. discriminate. }
    by rewrite sendToClient_open.
Qed.

Lemma X18_join_room_needs_generated_key_witness :
  reachable st_created
  ∧ rooms st_created !! keyA = Some 0
  ∧ handle_join_room envB 2 (JStr "1cab0fff") st_created
    = (st_created, [(2, join_error)]).
Proof.
  assert (reachable st_created) as Hreach
    by apply (reachable_run trace_created init reachable_init).
  split; [exact Hreach|]. split; [reflexivity|].
  destruct (X18_join_room_needs_generated_key
              envB 2 st_created (JStr "1cab0fff")) as (_ & _ & Hjoin).
  - exact Hreach.
  - reflexivity.
  - intros key [= <-]. right. reflexivity.
  - exact Hjoin.
Defined.

(** ** Round trips *)

Lemma setDelete_self ws : setDelete ws [ws] = [].
Proof. unfold setDelete. by rewrite filter_cons_False by (intros H; by apply H). Qed.

Lemma setDelete_setAdd ws (cs : list conn) :
  ws ∉ cs → setDelete ws (setAdd ws cs) = cs.
Proof.
  intros Hnotin. unfold setAdd. rewrite bool_decide_eq_false_2 by done.
  unfold setDelete. rewrite filter_app.
  fold (setDelete ws cs). fold (setDelete ws [ws]).
  by rewrite setDelete_notin, setDelete_self, app_nil_r.
Qed.

(** X19. A socket bound to no room that creates a room under a key not yet
    in [rooms] and then leaves: [rooms] and the bindings are back to what
    they were, the only trace being the discarded room object, left without
    members; an open socket is sent [room_created] and then [room_left]. *)
Theorem X19_create_then_leave env1 env2 ws st :
  clientRooms st !! ws = None →
  rooms st !! generateRoomKey env1 = None →
  rooms (handle_leave_room env2 ws (handle_create_room env1 ws st).1).1
  = rooms st
  ∧ clientRooms (handle_leave_room env2 ws (handle_create_room env1 ws st).1).1
    = clientRooms st
  ∧ heap (handle_leave_room env2 ws (handle_create_room env1 ws st).1).1
    = heap st ++ [mkRoom [] [] (now env1)]
  ∧ (run [(env1, on_message ws create_room); (env2, on_message ws leave_room)]
         st).2
    = sendToClient env1 ws (room_created (generateRoomKey env1))
      ++ sendToClient env2 ws room_left.
Proof.
  intros Hidle Hfresh.
  assert (handle_leave_room env2 ws (handle_create_room env1 ws st).1
          = (mkState (heap st ++ [mkRoom [] [] (now env1)])
                     (rooms st) (clientRooms st),
             sendToClient env2 ws room_left)) as Hleave.
  { unfold handle_leave_room, handle_create_room, boundRoom. cbn [fst].
    simpl clientRooms. rewrite lookup_insert_eq.
    rewrite truthy_key by apply generateRoomKey_length.
    unfold departRoom, getRoom. simpl rooms. simpl heap.
    rewrite lookup_insert_eq, lookup_app_r, Nat.sub_diag by done.
    simpl. rewrite setDelete_self. simpl.
    unfold unbindClient, deleteRoom, broadcastToRoom, getRoom. simpl.
    rewrite lookup_insert_eq, list_lookup_insert_eq
      by (rewrite length_app; simpl; lia).
    simpl. rewrite !delete_insert_id by done.
    rewrite insert_app_r_alt, Nat.sub_diag by lia. done. }
  split; [by rewrite Hleave|]. split; [by rewrite Hleave|].
  split; [by rewrite Hleave|].
  cbn [run step handle_message].
  destruct (handle_create_room env1 ws st) as [st1 out1] eqn:Hcreate.
  cbn [fst] in Hleave. rewrite Hleave.
  unfold handle_create_room in Hcreate. injection Hcreate as _ <-.
  by rewrite app_nil_r.
Qed.

Lemma X19_create_then_leave_witness :
  clientRooms st_created !! 2 = None
  ∧ rooms st_created !! generateRoomKey envB = None
  ∧ rooms (handle_leave_room envA 2 (handle_create_room envB 2 st_created).1).1
    = rooms st_created
  ∧ clientRooms
      (handle_leave_room envA 2 (handle_create_room envB 2 st_created).1).1
    = clientRooms st_created.
Proof.
  split; [reflexivity|]. split; [reflexivity|].
  destruct (X19_create_then_leave envB envA 2 st_created)
    as (Hrooms & Hbindings & _).
  - reflexivity.
  - reflexivity.
  - split; [exact Hrooms | exact Hbindings].
Defined.

(** X20. In a state the server can reach, a socket bound to no room that
    joins a stored room of which it is not a member and then leaves it
    puts the server back in the very state it was in. *)
Theorem X20_join_then_leave env1 env2 ws st key l room :
  reachable st →
  clientRooms st !! ws = None →
  getRoom st key = Some (l, room) →
  ws ∉ clients room →
  (handle_leave_room env2 ws (handle_join_room env1 ws (JStr key) st).1).1
  = st.
Proof.
  intros Hreach Hidle Hg Hnotin.
  pose proof (reachable_wf st Hreach) as Hwf.
  pose proof (reachable_tidy st Hreach) as Ht.
  pose proof (tidy_members st Ht key l room Hg) as Hmembers.
  apply getRoom_Some in Hg as [Hl Hroom].
  assert (l < length (heap st)) as Hlt by (by eapply lookup_lt_Some).
  assert (leaveCurrent ws st = st) as Hstay
    by (unfold leaveCurrent, boundRoom; by rewrite Hidle).
  unfold handle_join_room, getRoomJs, getRoom. rewrite Hl, Hroom, Hstay, Hroom.
  cbn [fst].
  unfold handle_leave_room, boundRoom. simpl clientRooms.
  rewrite lookup_insert_eq.
  rewrite truthy_key by (by eapply wf_keys).
  unfold departRoom, getRoom. simpl rooms. simpl heap.
  rewrite Hl, list_lookup_insert_eq by done.
  cbn [clients withClients]. rewrite setDelete_setAdd by done.
  rewrite bool_decide_eq_false_2
    by (intros Hlen; by apply length_zero_iff_nil in Hlen).
  cbn [fst]. unfold unbindClient, setRoom, bindClient. simpl.
  rewrite list_insert_insert_eq, delete_insert_id by done.
  replace (withClients (withClients room (setAdd ws (clients room)))
                       (clients room))
    with room by (by destruct room).
  rewrite list_insert_id by done.
  by destruct st.
Qed.

Lemma X20_join_then_leave_witness :
  reachable st_created
  ∧ clientRooms st_created !! 2 = None
  ∧ (handle_leave_room envA 2
       (handle_join_room envB 2 (JStr keyA) st_created).1).1
    = st_created.
Proof.
  assert (reachable st_created) as Hreach
    by apply (reachable_run trace_created init reachable_init).
  split; [exact Hreach|]. split; [reflexivity|].
  apply (X20_join_then_leave envB envA 2 st_created keyA 0
           (mkRoom [1] [] 1000%Z)).
  - exact Hreach.
  - reflexivity.
  - reflexivity.
  - vm_compute. intros Hin. apply list_elem_of_singleton in Hin. discriminate.
Defined.
